(** * price-per-tb: the extraction, normalization and ranking core

    A shallow embedding of the two scripts of the repository,

    - [crawl.py]: the Newegg crawler ([parse_page], [out_of_stock],
      [hidden_price], [group_items]), which computes in [decimal.Decimal];
    - [hdd_price_scraper.py]: the multi-retailer scraper ([parse_price],
      [parse_capacity_tb]), which computes in floats;

    together with the parts of the Python runtime the two scripts call: the
    regular expressions of [re], the numbers of [decimal], the element tree
    of [lxml].

    Text is a Rocq [string], one character per byte (UTF-8 for the currency
    signs).  The character classes [\s], [\d], [\w] and the methods
    [strip] and [lower] are Python's on ASCII; a byte above 127 belongs to
    no class and is left alone by [lower]. *)

From Stdlib Require Import String Ascii List Bool ZArith NArith QArith Qpower Lia.
From Stdlib Require Import Sorting.Sorted Sorting.Permutation.
Import ListNotations.

Close Scope Q_scope.
Local Open Scope string_scope.
Local Open Scope list_scope.

(** ** Python outcomes *)

(** The exceptions the modelled code can raise. *)
Inductive exn : Type :=
| AssertionError
| AttributeError
| TypeError
| ValueError
| InvalidOperation
| DivisionByZero
| Overflow.

(** A call either returns a value or raises. *)
Inductive result (A : Type) : Type :=
| Ret (a : A)
| Raise (e : exn).

Arguments Ret {A} a.
Arguments Raise {A} e.

Definition rbind {A B : Type} (m : result A) (f : A -> result B) : result B :=
  match m with
  | Ret a => f a
  | Raise e => Raise e
  end.

(** [try: m except (e1, e2, ...): h] *)
Definition try_except {A : Type} (m : result A) (caught : exn -> bool)
    (h : result A) : result A :=
  match m with
  | Ret a => Ret a
  | Raise e => if caught e then h else Raise e
  end.

Declare Scope py_scope.
Delimit Scope py_scope with py.
Notation "x <- m ;; k" := (rbind m (fun x => k))
  (at level 61, m at next level, right associativity) : py_scope.

(** ** Text *)

Module Text.

Definition code (c : ascii) : N := N_of_ascii c.

Definition between (lo hi c : ascii) : bool :=
  (code lo <=? code c)%N && (code c <=? code hi)%N.

Definition is_digit (c : ascii) : bool := between "0" "9" c.

Definition is_upper (c : ascii) : bool := between "A" "Z" c.

Definition is_lower (c : ascii) : bool := between "a" "z" c.

(** [\w] *)
Definition is_word (c : ascii) : bool :=
  is_digit c || is_lower c || is_upper c || Ascii.eqb c "_".

(** [\s], and the characters [str.strip] removes: TAB, LF, VT, FF, CR,
    FS, GS, RS, US and the space. *)
Definition is_space (c : ascii) : bool :=
  between "009" "013" c || between "028" "031" c || Ascii.eqb c " ".

(** [.] without DOTALL: anything but a newline. *)
Definition not_newline (c : ascii) : bool := negb (Ascii.eqb c "010").

(** [c in s], also the class [[...]] of a regular expression. *)
Fixpoint one_of (s : string) (c : ascii) : bool :=
  match s with
  | EmptyString => false
  | String d t => Ascii.eqb c d || one_of t c
  end.

Definition lower_char (c : ascii) : ascii :=
  if is_upper c then ascii_of_N (code c + 32) else c.

(** [s.lower()] *)
Fixpoint lower (s : string) : string :=
  match s with
  | EmptyString => EmptyString
  | String c t => String (lower_char c) (lower t)
  end.

(** [s.lstrip()] *)
Fixpoint lstrip (s : string) : string :=
  match s with
  | EmptyString => EmptyString
  | String c t => if is_space c then lstrip t else s
  end.

(** [s.rstrip()] *)
Fixpoint rstrip (s : string) : string :=
  match s with
  | EmptyString => EmptyString
  | String c t =>
      match rstrip t with
      | EmptyString => if is_space c then EmptyString else String c EmptyString
      | t' => String c t'
      end
  end.

(** [s.strip()] *)
Definition strip (s : string) : string := rstrip (lstrip s).

(** [s.replace(c, e)] for a one-character [c] and the empty string [e]. *)
Fixpoint remove_char (c : ascii) (s : string) : string :=
  match s with
  | EmptyString => EmptyString
  | String d t => if Ascii.eqb d c then remove_char c t else String d (remove_char c t)
  end.

(** [s.split(c)[0]]: the text before the first [c], all of [s] when there
    is none. *)
Fixpoint before_first (c : ascii) (s : string) : string :=
  match s with
  | EmptyString => EmptyString
  | String d t => if Ascii.eqb d c then EmptyString else String d (before_first c t)
  end.

(** [s[n:]] for [0 <= n]. *)
Fixpoint drop (n : nat) (s : string) : string :=
  match n, s with
  | O, _ => s
  | S _, EmptyString => EmptyString
  | S n', String _ t => drop n' t
  end.

(** [s.find(sub)]: the index of the first occurrence, [None] for Python's
    [-1]. *)
Fixpoint find (sub s : string) : option nat :=
  if String.prefix sub s then Some O
  else match s with
       | EmptyString => None
       | String _ t => option_map S (find sub t)
       end.

(** [sub in s] *)
Definition contains (sub s : string) : bool :=
  match find sub s with Some _ => true | None => false end.

(** The longest prefix of [s] in the class [p], and what follows it. *)
Fixpoint span (p : ascii -> bool) (s : string) : string * string :=
  match s with
  | EmptyString => (EmptyString, EmptyString)
  | String c t =>
      if p c then let '(a, b) := span p t in (String c a, b)
      else (EmptyString, s)
  end.

Definition digit_val (c : ascii) : N := (code c - code "0")%N.

(** [int(s)] for a string of digits; the empty string counts as 0. *)
Definition digits_val (s : string) : N :=
  (fix go (acc : N) (s : string) : N :=
     match s with
     | EmptyString => acc
     | String c t => go (10 * acc + digit_val c)%N t
     end) 0%N s.

Fixpoint all_in (p : ascii -> bool) (s : string) : bool :=
  match s with
  | EmptyString => true
  | String c t => p c && all_in p t
  end.

End Text.

(** ** Regular expressions ([re]) *)

Module Re.

Import Text.

(** The patterns of the two scripts repeat single characters only, so
    repetition is over a class; it is greedy, as all their quantifiers
    are. *)
Inductive re : Type :=
| Eps
| Cls (p : ascii -> bool)
| Seq (r1 r2 : re)
| Alt (r1 r2 : re)
| Rep (p : ascii -> bool) (lo : nat) (hi : option nat)
| Grp (n : nat) (r : re)
| Bnd
| NLook (r : re).

(** A literal string. *)
Fixpoint Lit (s : string) : re :=
  match s with
  | EmptyString => Eps
  | String c t => Seq (Cls (Ascii.eqb c)) (Lit t)
  end.

Definition groups : Type := list (nat * string).

(** A continuation gets the character before the position, the text from
    the position on, the position and the groups captured so far. *)
Definition kont (R : Type) : Type :=
  option ascii -> string -> nat -> groups -> option R.

Definition word_before (prev : option ascii) : bool :=
  match prev with Some c => is_word c | None => false end.

Definition word_at (s : string) : bool :=
  match s with String c _ => is_word c | EmptyString => false end.

(** Greedy [p{lo,hi}]: take one more character first, give it back when
    the rest of the pattern fails. *)
Fixpoint rep {R : Type} (p : ascii -> bool) (lo : nat) (hi : option nat)
    (prev : option ascii) (s : string) (pos : nat) (g : groups)
    (k : kont R) {struct s} : option R :=
  let stop := match lo with O => k prev s pos g | S _ => None end in
  match hi with
  | Some O => stop
  | _ =>
      match s with
      | String c t =>
          if p c then
            match rep p (pred lo) (option_map pred hi) (Some c) t (S pos) g k with
            | Some r => Some r
            | None => stop
            end
          else stop
      | EmptyString => stop
      end
  end.

(** The backtracking matcher: [run r prev s pos g k] matches [r] at [s]
    and hands the rest to [k]; alternatives are tried in order. *)
Fixpoint run {R : Type} (r : re) (prev : option ascii) (s : string)
    (pos : nat) (g : groups) (k : kont R) {struct r} : option R :=
  match r with
  | Eps => k prev s pos g
  | Cls p =>
      match s with
      | String c t => if p c then k (Some c) t (S pos) g else None
      | EmptyString => None
      end
  | Seq a b =>
      run a prev s pos g (fun prev' s' pos' g' => run b prev' s' pos' g' k)
  | Alt a b =>
      match run a prev s pos g k with
      | Some x => Some x
      | None => run b prev s pos g k
      end
  | Rep p lo hi => rep p lo hi prev s pos g k
  | Grp n a =>
      run a prev s pos g
        (fun prev' s' pos' g' =>
           k prev' s' pos' ((n, substring 0 (pos' - pos) s) :: g'))
  | Bnd => if xorb (word_before prev) (word_at s) then k prev s pos g else None
  | NLook a =>
      match run a prev s pos g (fun _ _ _ _ => Some tt) with
      | Some _ => None
      | None => k prev s pos g
      end
  end.

(** A match object: where it starts and ends, and its groups. *)
Record match_ : Type := { m_start : nat; m_end : nat; m_groups : groups }.

Definition match_at (r : re) (prev : option ascii) (s : string) (pos : nat)
    : option match_ :=
  run r prev s pos []
    (fun _ _ e g => Some {| m_start := pos; m_end := e; m_groups := g |}).

Fixpoint search_from (r : re) (prev : option ascii) (s : string) (pos : nat)
    : option match_ :=
  match match_at r prev s pos with
  | Some m => Some m
  | None =>
      match s with
      | String c t => search_from r (Some c) t (S pos)
      | EmptyString => None
      end
  end.

(** [r.search(s)]: the leftmost match. *)
Definition search (r : re) (s : string) : option match_ :=
  search_from r None s 0.

(** [m.group(n)] for a group that took part in the match. *)
Fixpoint lookup (n : nat) (g : groups) : string :=
  match g with
  | [] => EmptyString
  | (i, s) :: g' => if Nat.eqb n i then s else lookup n g'
  end.

Definition group (m : match_) (n : nat) : string := lookup n (m_groups m).

(** [re.sub(r, '', s)]: the leftmost matches, none overlapping another,
    are cut out.  [skip] counts the characters of the current match still
    to be cut; an empty match cuts nothing. *)
Fixpoint sub_from (r : re) (prev : option ascii) (s : string) (pos : nat)
    (skip : nat) : string :=
  match s with
  | EmptyString => EmptyString
  | String c t =>
      match skip with
      | S n => sub_from r (Some c) t (S pos) n
      | O =>
          match match_at r prev s pos with
          | Some m =>
              match m_end m - pos with
              | S n => sub_from r (Some c) t (S pos) n
              | O => String c (sub_from r (Some c) t (S pos) O)
              end
          | None => String c (sub_from r (Some c) t (S pos) O)
          end
      end
  end.

Definition sub_empty (r : re) (s : string) : string := sub_from r None s 0 0.

(** [r1 r2 ... rn] *)
Fixpoint cat (rs : list re) : re :=
  match rs with
  | [] => Eps
  | r :: rs' => Seq r (cat rs')
  end.

(** [r1|r2|...|rn] *)
Fixpoint any_of (rs : list re) : re :=
  match rs with
  | [] => Cls (fun _ => false)
  | [r] => r
  | r :: rs' => Alt r (any_of rs')
  end.

End Re.

(** ** Decimal numbers ([decimal]) *)

(** [decimal.Decimal] under the default context, which neither script
    changes: 28 significant digits, rounding half to even, exponents within
    [Emin] and [Emax], and the traps [InvalidOperation], [DivisionByZero]
    and [Overflow] raising.  The operations follow the module's Python
    implementation; a coefficient, there a string of digits, is here the
    integer it spells. *)

Module Decimal.

Import Text.
Local Open Scope Z_scope.

Definition prec : Z := 28.
Definition Emax : Z := 999999.
Definition Emin : Z := -999999.
Definition Etiny : Z := Emin - prec + 1.
Definition Etop : Z := Emax - prec + 1.

(** A number is [(-1)^sign * coeff * 10^exp] with [0 <= coeff], an
    infinity or a NaN (quiet or signaling; its diagnostic digits are not
    kept). *)
Inductive t : Type :=
| Fin (sign : bool) (coeff : Z) (exp : Z)
| Inf (sign : bool)
| NaN (sign : bool) (signaling : bool).

Fixpoint ndigits_fuel (fuel : nat) (n : Z) : Z :=
  match fuel with
  | O => 1
  | S f => if n <? 10 then 1 else 1 + ndigits_fuel f (n / 10)
  end.

(** [len(self._int)]: the number of decimal digits of a coefficient. *)
Definition ndigits (n : Z) : Z := ndigits_fuel (S (Z.to_nat (Z.log2 n))) n.

Definition is_zero (d : t) : bool :=
  match d with
  | Fin _ c _ => c =? 0
  | _ => false
  end.

Definition is_nan (d : t) : bool :=
  match d with
  | NaN _ _ => true
  | _ => false
  end.

(** *** [Decimal(str)] *)

Definition is_e (c : ascii) : bool := one_of "eE" c.

(** An optional sign, and what follows it. *)
Definition split_sign (s : string) : bool * string :=
  match s with
  | String "-" r => (true, r)
  | String "+" r => (false, r)
  | _ => (false, s)
  end.

(** The exponent part, [E], an optional sign and digits, up to the end
    of the string. *)
Definition parse_exponent (s : string) : option Z :=
  match s with
  | EmptyString => Some 0
  | String c r =>
      if is_e c then
        let '(neg, ds) := split_sign r in
        if all_in is_digit ds && negb (String.eqb ds EmptyString) then
          let v := Z.of_N (digits_val ds) in
          Some (if neg then - v else v)
        else None
      else None
  end.

(** Digits with at least one digit before or after an optional point,
    then an optional exponent, up to the end of the string: the
    coefficient and the exponent of the number. *)
Definition parse_number (s : string) : option (Z * Z) :=
  let '(ip, r1) := span is_digit s in
  let '(fp, r2) :=
    match r1 with
    | String "." r => span is_digit r
    | _ => (EmptyString, r1)
    end in
  if String.eqb ip EmptyString && String.eqb fp EmptyString then None
  else
    match parse_exponent r2 with
    | Some e =>
        Some (Z.of_N (digits_val (ip ++ fp)), e - Z.of_nat (String.length fp))
    | None => None
    end.

(** [NaN] or [sNaN] in any case, then digits. *)
Definition parse_nan (s : string) : option bool :=
  let l := lower s in
  if String.prefix "nan" l && all_in is_digit (drop 3 l) then Some false
  else if String.prefix "snan" l && all_in is_digit (drop 4 l) then Some true
  else None.

(** [Decimal(s)]: white space around the numeral and underscores anywhere
    are dropped; the conversion is exact, whatever the precision. *)
Definition of_string (s : string) : result t :=
  let s := remove_char "_" (strip s) in
  let '(sign, body) := split_sign s in
  match parse_number body with
  | Some (c, e) => Ret (Fin sign c e)
  | None =>
      if String.eqb (lower body) "inf" || String.eqb (lower body) "infinity"
      then Ret (Inf sign)
      else match parse_nan body with
           | Some sg => Ret (NaN sign sg)
           | None => Raise InvalidOperation
           end
  end.

(** [Decimal(n)] for an [int]. *)
Definition of_int (n : Z) : t := Fin (n <? 0) (Z.abs n) 0.

(** *** Rounding to the context: [_fix] *)

(** [_round_half_even]: whether cutting the [drop] low digits of [c]
    rounds the kept digits up. *)
Definition rounds_up (c drop : Z) : bool :=
  let q := c / 10 ^ drop in
  let r := c mod 10 ^ drop in
  (10 ^ drop <? 2 * r) || ((2 * r =? 10 ^ drop) && Z.odd q).

Definition fix_ (d : t) : result t :=
  match d with
  | Fin s c e =>
      if c =? 0 then Ret (Fin s 0 (Z.min (Z.max e Etiny) Emax))
      else
        let exp_min := ndigits c + e - prec in
        if Etop <? exp_min then Raise Overflow
        else
          let exp_min := if exp_min <? Etiny then Etiny else exp_min in
          if e <? exp_min then
            let digits := ndigits c + e - exp_min in
            let '(c, len, digits) :=
              if digits <? 0 then (1, 1, 0) else (c, ndigits c, digits) in
            let kept := c / 10 ^ (len - digits) in
            let coeff := if rounds_up c (len - digits) then kept + 1 else kept in
            let '(coeff, exp_min) :=
              if prec <? ndigits coeff then (coeff / 10, exp_min + 1)
              else (coeff, exp_min) in
            if Etop <? exp_min then Raise Overflow
            else Ret (Fin s coeff exp_min)
          else Ret d
  | _ => Ret d
  end.

(** *** Arithmetic *)

(** [_check_nans]: a signaling NaN traps, a quiet one is the answer. *)
Definition check_nans (a b : t) : option (result t) :=
  match a, b with
  | NaN _ true, _ => Some (Raise InvalidOperation)
  | _, NaN _ true => Some (Raise InvalidOperation)
  | NaN s false, _ => Some (Ret (NaN s false))
  | _, NaN s false => Some (Ret (NaN s false))
  | _, _ => None
  end.

(** [a * b] *)
Definition mul (a b : t) : result t :=
  match check_nans a b with
  | Some r => r
  | None =>
      match a, b with
      | Fin sa ca ea, Fin sb cb eb => fix_ (Fin (xorb sa sb) (ca * cb) (ea + eb))
      | Inf sa, Fin sb cb _ =>
          if cb =? 0 then Raise InvalidOperation else Ret (Inf (xorb sa sb))
      | Fin sa ca _, Inf sb =>
          if ca =? 0 then Raise InvalidOperation else Ret (Inf (xorb sa sb))
      | Inf sa, Inf sb => Ret (Inf (xorb sa sb))
      | _, _ => Raise InvalidOperation
      end
  end.

(** An exact quotient is brought as near its ideal exponent as its
    trailing zeros allow. *)
Fixpoint strip_zeros (n : nat) (coeff exp : Z) : Z * Z :=
  match n with
  | O => (coeff, exp)
  | S n' =>
      if coeff mod 10 =? 0 then strip_zeros n' (coeff / 10) (exp + 1)
      else (coeff, exp)
  end.

(** [a / b] *)
Definition div (a b : t) : result t :=
  match check_nans a b with
  | Some r => r
  | None =>
      match a, b with
      | Inf _, Inf _ => Raise InvalidOperation
      | Inf sa, Fin sb _ _ => Ret (Inf (xorb sa sb))
      | Fin sa _ _, Inf sb => Ret (Fin (xorb sa sb) 0 Etiny)
      | Fin sa ca ea, Fin sb cb eb =>
          if cb =? 0 then
            if ca =? 0 then Raise InvalidOperation else Raise DivisionByZero
          else if ca =? 0 then fix_ (Fin (xorb sa sb) 0 (ea - eb))
          else
            let shift := ndigits cb - ndigits ca + prec + 1 in
            let exp := ea - eb - shift in
            let '(coeff, remainder) :=
              if 0 <=? shift then Z.div_eucl (ca * 10 ^ shift) cb
              else Z.div_eucl ca (cb * 10 ^ (- shift)) in
            let '(coeff, exp) :=
              if remainder =? 0 then
                strip_zeros (Z.to_nat (ea - eb - exp)) coeff exp
              else ((if coeff mod 5 =? 0 then coeff + 1 else coeff), exp) in
            fix_ (Fin (xorb sa sb) coeff exp)
      | _, _ => Raise InvalidOperation
      end
  end.

(** *** Values and comparison *)

(** The rational a finite number denotes. *)
Definition to_Q (s : bool) (c e : Z) : Q :=
  (inject_Z (if s then - c else c) * Qpower (inject_Z 10) e)%Q.

Definition value (d : t) : option Q :=
  match d with
  | Fin s c e => Some (to_Q s c e)
  | _ => None
  end.

(** A number on the extended line: the infinities sit below and above
    every rational. *)
Definition place (d : t) : Z * Q :=
  match d with
  | Fin s c e => (0, to_Q s c e)
  | Inf s => (if s then -1 else 1, 0%Q)
  | NaN _ _ => (0, 0%Q)
  end.

Definition place_leb (x y : Z * Q) : bool :=
  (fst x <? fst y) || ((fst x =? fst y) && Qle_bool (snd x) (snd y)).

(** [a <= b] for numbers. *)
Definition leb (a b : t) : bool := place_leb (place a) (place b).

(** [a == b] for numbers: equal values, whatever the exponents. *)
Definition eqb (a b : t) : bool := leb a b && leb b a.

(** [a < b]; a comparison with a NaN traps. *)
Definition lt (a b : t) : result bool :=
  if is_nan a || is_nan b then Raise InvalidOperation
  else Ret (negb (leb b a)).

End Decimal.

(** ** The element tree ([lxml.html]) *)

(** What the crawler asks of a parsed page: tags, attributes, the text
    before the first child, the children, the text after the element.
    Comment nodes are not modelled. *)

Module Html.

#[local] Set Warnings "-register-all".

Inductive element : Type :=
| Element (tag : string) (attrib : list (string * string))
    (text : option string) (children : list element) (tail : option string).

Definition tag (e : element) : string :=
  match e with Element t _ _ _ _ => t end.

Definition attrib (e : element) : list (string * string) :=
  match e with Element _ a _ _ _ => a end.

(** [e.text] *)
Definition text (e : element) : option string :=
  match e with Element _ _ x _ _ => x end.

Definition children (e : element) : list element :=
  match e with Element _ _ _ c _ => c end.

(** [e.tail] *)
Definition tail (e : element) : option string :=
  match e with Element _ _ _ _ x => x end.

Definition or_empty (x : option string) : string :=
  match x with Some s => s | None => EmptyString end.

(** [e.get(name)] *)
Fixpoint lookup_attr (name : string) (a : list (string * string)) : option string :=
  match a with
  | [] => None
  | (k, v) :: a' => if String.eqb k name then Some v else lookup_attr name a'
  end.

Definition get (e : element) (name : string) : option string :=
  lookup_attr name (attrib e).

(** [len(e)] *)
Definition len (e : element) : nat := List.length (children e).

(** [e.text_content()]: all the text inside [e], in document order. *)
Fixpoint text_content (e : element) : string :=
  match e with
  | Element _ _ x cs _ =>
      (or_empty x ++
       (fix go (cs : list element) : string :=
          match cs with
          | [] => EmptyString
          | c :: rest => text_content c ++ or_empty (tail c) ++ go rest
          end) cs)%string
  end.

(** An element found in a tree comes with its next sibling, which
    [getnext] returns. *)
Definition located : Type := element * option element.

(** The children of [e], in order. *)
Fixpoint with_next (cs : list element) : list located :=
  match cs with
  | [] => []
  | c :: rest => (c, List.hd_error rest) :: with_next rest
  end.

(** The descendants of [e], in document order ([e] itself is not among
    them). *)
Fixpoint descendants (e : element) : list located :=
  match e with
  | Element _ _ _ cs _ =>
      (fix go (cs : list element) : list located :=
         match cs with
         | [] => []
         | c :: rest => (c, List.hd_error rest) :: descendants c ++ go rest
         end) cs
  end.

Definition has_tag (t : string) (e : element) : bool := String.eqb (tag e) t.

(** The predicate [[@class="v"]]. *)
Definition class_is (v : string) (e : element) : bool :=
  match get e "class" with
  | Some c => String.eqb c v
  | None => false
  end.

(** [e.iterfind('.//t[@class="v"]')] *)
Definition iter_desc (t v : string) (e : element) : list located :=
  List.filter (fun l => has_tag t (fst l) && class_is v (fst l)) (descendants e).

(** [e.find('.//t[@class="v"]')] *)
Definition find_desc (t v : string) (e : element) : option located :=
  List.hd_error (iter_desc t v e).

(** [e.find('.//t[@class="v"]/c')]: the first child [c] of the first
    such [t] that has one. *)
Definition find_desc_child (t v c : string) (e : element) : option located :=
  List.hd_error
    (List.flat_map
       (fun l => List.filter (fun k => has_tag c (fst k))
                   (with_next (children (fst l))))
       (iter_desc t v e)).

(** [root.xpath("//div[contains(@class, 'v')]")]: every such [div] of
    the document, the root included. *)
Definition xpath_div_class_contains (v : string) (root : element) : list element :=
  List.filter
    (fun e => has_tag "div" e &&
              match get e "class" with
              | Some c => Text.contains v c
              | None => false
              end)
    (root :: List.map fst (descendants root)).

End Html.

(** ** crawl.py *)

Module Crawl.

Import Text Re Html.

(** *** What a run prints and logs *)

Inductive event : Type :=
| PrintMarkup (item : element)
    (* print(lxml.html.tostring(item, pretty_print=True, encoding="unicode")) *)
| PrintMissing (item_number title : string)
    (* print(item_number, "//", title) *)
| PrintRepr (price_str : string)
    (* print(repr(price_str)) *)
| LogDuplicate (item_number : string).
    (* logger.info("duplicate", item_number=item["number"]) *)

(** A computation writes events and then returns or raises; what was
    written before an exception stays written. *)
Definition io (A : Type) : Type := list event * result A.

Definition ret {A : Type} (a : A) : io A := ([], Ret a).

Definition raise {A : Type} (e : exn) : io A := ([], Raise e).

Definition emit (ev : event) : io unit := ([ev], Ret tt).

Definition lift {A : Type} (r : result A) : io A := ([], r).

Definition bind {A B : Type} (m : io A) (f : A -> io B) : io B :=
  match m with
  | (l, Ret a) => let '(l', r) := f a in (l ++ l', r)
  | (l, Raise e) => (l, Raise e)
  end.

Declare Scope io_scope.
Delimit Scope io_scope with io.
Notation "x <- m ;; k" := (bind m (fun x => k))
  (at level 61, m at next level, right associativity) : io_scope.
Notation "m ;; k" := (bind m (fun _ => k))
  (at level 61, right associativity) : io_scope.

Definition when (b : bool) (m : io unit) : io unit := if b then m else ret tt.

(** [assert b] *)
Definition assert (b : bool) : io unit := if b then ret tt else raise AssertionError.


Definition outcome {A : Type} (m : io A) : result A := snd m.

(** *** The patterns *)

Definition digit_or_dot : ascii -> bool := one_of "0123456789.".

(** [re_size1 = \b([0-9.]+) ?([TGtg])[Bb]\b(?!/s)] *)
Definition re_size1 : re :=
  cat [Bnd; Grp 1 (Rep digit_or_dot 1 None); Rep (Ascii.eqb " ") 0 (Some 1);
       Grp 2 (Cls (one_of "TGtg")); Cls (one_of "Bb"); Bnd; NLook (Lit "/s")].

(** [re_size2 = \b([0-9.]+) ?([TGtg])[Bb]?\b(?!/s)] *)
Definition re_size2 : re :=
  cat [Bnd; Grp 1 (Rep digit_or_dot 1 None); Rep (Ascii.eqb " ") 0 (Some 1);
       Grp 2 (Cls (one_of "TGtg")); Rep (one_of "Bb") 0 (Some 1); Bnd;
       NLook (Lit "/s")].

(** *** Stock and price tests *)

Definition is_some {A : Type} (x : option A) : bool :=
  match x with Some _ => true | None => false end.

Definition text_is (x : option string) (s : string) : bool :=
  match x with Some t => String.eqb t s | None => false end.

(** [hidden_price(item)] *)
Definition hidden_price (item : element) : bool :=
  match find_desc_child "li" "price-map" "a" item with
  | Some (price_action, _) =>
      text_is (text price_action) "See price in cart"
      || text_is (text price_action) "See Price after Checkout"
  | None => false
  end.

(** The current-price element: [li] of class [price-current], or else of
    class [price-current ] with a space at its end. *)
Definition current_price (item : element) : option located :=
  match find_desc "li" "price-current" item with
  | Some l => Some l
  | None => find_desc "li" "price-current " item
  end.

(** [out_of_stock(item)] *)
Definition out_of_stock (item : element) : io bool :=
  (let cur_price := current_price item in
   let promo := find_desc "p" "item-promo" item in
   let btn_message := find_desc "span" "btn btn-message " item in
   when (negb (is_some cur_price)) (emit (PrintMarkup item)) ;;
   match cur_price with
   | None => raise AssertionError
   | Some (cur_price, _) =>
       ret ((Nat.eqb (len cur_price) 0
             && match promo with
                | Some (promo, _) => String.eqb (text_content promo) "OUT OF STOCK"
                | None => false
                end)
            || match btn_message with
               | Some (btn_message, _) => text_is (text btn_message) "Out Of Stock"
               | None => false
               end)
   end)%io.

(** *** Items *)

Record Item : Type := {
  price : Decimal.t;
  title : string;
  size : string;
  size_gb : Decimal.t;
  number : string;
  price_per_tb : Decimal.t
}.

(** [href[href.find("Item=") + 5:]]; [find] answers -1 when there is no
    ["Item="], and the slice then starts at 4. *)
Definition item_number_of (href : string) : string :=
  match find "Item=" href with
  | Some i => drop (i + 5) href
  | None => drop 4 href
  end.

(** The capacity of a title: [None] when neither pattern matches, else
    the text [size] and the number of gigabytes. *)
Definition parse_size (title : string) : result (option (string * Decimal.t)) :=
  let m :=
    match search re_size1 title with
    | Some m => Some m
    | None => search re_size2 title
    end in
  match m with
  | None => Ret None
  | Some m =>
      (let size := (group m 1 ++ group m 2 ++ "B")%string in
       size_gb <- Decimal.of_string (group m 1) ;;
       size_gb <- (if String.eqb (group m 2) "T"
                   then Decimal.mul size_gb (Decimal.of_int 1000)
                   else Ret size_gb) ;;
       Ret (Some (size, size_gb)))%py
  end.

(** [s + t] for two texts of the tree, either of which may be [None]. *)
Definition add_text (s t : option string) : result string :=
  match s, t with
  | Some s, Some t => Ret (s ++ t)%string
  | _, _ => Raise TypeError
  end.

(** The [try] of [parse_page]: [Decimal(price_str.replace(",", e))] with
    [e] the empty string; an [InvalidOperation] is printed and raised
    again. *)
Definition price_of_text (price_str : string) : io Decimal.t :=
  match Decimal.of_string (remove_char "," price_str) with
  | Ret p => ret p
  | Raise InvalidOperation =>
      (emit (PrintRepr price_str) ;; raise InvalidOperation)%io
  | Raise e => raise e
  end.

(** The body of the loop of [parse_page] for one item container: [None]
    is [continue], [Some] the item appended. *)
Definition parse_item (item : element) : io (option Item) :=
  (match find_desc "a" "item-title" item with
   | None => raise AttributeError
   | Some (title_link, _) =>
   match get title_link "href" with
   | None => raise AttributeError
   | Some href =>
   let item_number := item_number_of href in
   let title := text_content title_link in
   when (String.eqb item_number EmptyString) (emit (PrintMarkup item)) ;;
   assert (negb (String.eqb item_number EmptyString)) ;;
   skip <- (if hidden_price item then ret true else out_of_stock item) ;;
   if skip then ret None else
   let dollars := find_desc_child "li" "price-current" "strong" item in
   if match dollars with
      | Some (dollars, _) => text_is (text dollars) "COMING SOON"
      | None => false
      end
   then ret None else
   let dollars :=
     match dollars with
     | Some d => Some d
     | None => find_desc_child "li" "price-current " "strong" item
     end in
   if negb (is_some dollars) && is_some (find_desc "span" "price-was-data" item)
   then ret None else
   match dollars with
   | None =>
       emit (PrintMissing item_number title) ;;
       emit (PrintMarkup item) ;;
       raise AttributeError
   | Some (dollars, cents) =>
       price_str <- lift (add_text (text dollars)
                            (match cents with
                             | None => Some EmptyString
                             | Some cents => text cents
                             end)) ;;
       price <- price_of_text price_str ;;
       sz <- lift (parse_size title) ;;
       match sz with
       | None => ret None
       | Some (size, size_gb) =>
           q <- lift (Decimal.div price size_gb) ;;
           price_per_tb <- lift (Decimal.mul q (Decimal.of_int 1000)) ;;
           ret (Some {| price := price;
                        title := title;
                        size := size;
                        size_gb := size_gb;
                        number := item_number;
                        price_per_tb := price_per_tb |})
       end
   end
   end
   end)%io.

(** The loop of [parse_page] over the item containers. *)
Fixpoint parse_items (containers : list element) (items : list Item)
    : io (list Item) :=
  match containers with
  | [] => ret items
  | item :: rest =>
      (r <- parse_item item ;;
       parse_items rest (match r with
                         | Some it => items ++ [it]
                         | None => items
                         end))%io
  end.

(** [parse_page(filename)], from the root of the parsed file on. *)
Definition parse_page (root : element) : io (list Item) :=
  parse_items (xpath_div_class_contains "item-container" root) [].

(** *** Grouping: duplicates and ranking *)

(** [number in seen]; the set [seen] is kept as the list of its members. *)
Definition mem (n : string) (seen : list string) : bool :=
  List.existsb (String.eqb n) seen.

(** The loop of [group_items] over the items of one page: an item whose
    number was seen is logged and passed over, any other is recorded and
    appended. *)
Fixpoint scan_items (parsed : list Item) (seen : list string)
    (items : list Item) : io (list string * list Item) :=
  match parsed with
  | [] => ret (seen, items)
  | item :: rest =>
      if mem (number item) seen
      then (emit (LogDuplicate (number item)) ;; scan_items rest seen items)%io
      else scan_items rest (number item :: seen) (items ++ [item])
  end.

(** The loop over the pages of one category, each parsed when its turn
    comes. *)
Fixpoint scan_pages (pages : list element) (seen : list string)
    (items : list Item) : io (list string * list Item) :=
  match pages with
  | [] => ret (seen, items)
  | page :: rest =>
      (parsed <- parse_page page ;;
       st <- scan_items parsed seen items ;;
       scan_pages rest (fst st) (snd st))%io
  end.

(** [list.sort] is stable: of two items with equal keys the one that came
    first stays first.  It asks only [y < x] of two keys, and moves [x]
    before [y] when the answer is no. *)
Fixpoint insert (x : Item) (l : list Item) : list Item :=
  match l with
  | [] => [x]
  | y :: r =>
      if Decimal.leb (price_per_tb x) (price_per_tb y) then x :: l
      else y :: insert x r
  end.

Fixpoint stable_sort (l : list Item) : list Item :=
  match l with
  | [] => []
  | x :: r => insert x (stable_sort r)
  end.

(** [items.sort(key=lambda i: i["price_per_tb"])].  Sorting two items or
    more compares every key with another, and comparing a NaN traps. *)
Definition sort_by_price_per_tb (items : list Item) : result (list Item) :=
  if (2 <=? List.length items)%nat
     && List.existsb (fun i => Decimal.is_nan (price_per_tb i)) items
  then Raise InvalidOperation
  else Ret (stable_sort items).

(** One round of the outer loop of [group_items]: the items of a
    category, from its pages in order. *)
Definition group_category (pages : list element) : io (list Item) :=
  (st <- scan_pages pages [] [] ;;
   lift (sort_by_price_per_tb (snd st)))%io.

(** [list(group_items(today))], the categories given with the pages of
    their files. *)
Fixpoint group_items (categories : list (string * string * list element))
    : io (list (string * string * list Item)) :=
  match categories with
  | [] => ret []
  | (name, label, pages) :: rest =>
      (items <- group_category pages ;;
       groups <- group_items rest ;;
       ret ((name, label, items) :: groups))%io
  end.

(** The same round on listings already extracted: what [group_items] does
    to the sequence of items its pages yield. *)
Definition dedupe_and_rank (listings : list Item) : io (list Item) :=
  (st <- scan_items listings [] [] ;;
   lift (sort_by_price_per_tb (snd st)))%io.


End Crawl.

(** ** hdd_price_scraper.py *)

Module Scraper.

Import Text Re.

(** *** Floats *)

(** A Python [float] read from a numeral: the double nearest to
    [(-1)^neg * mant * 10^exp], kept as the decimal it was read from; or an
    infinity; or NaN. *)
Inductive pyfloat : Type :=
| FNum (neg : bool) (mant : N) (exp : Z)
| FInf (neg : bool)
| FNan.

(** An underscore of a numeral stands between two digits. *)
Fixpoint underscores_ok (prev : option ascii) (s : string) : bool :=
  match s with
  | EmptyString => true
  | String c t =>
      if Ascii.eqb c "_" then
        match prev, t with
        | Some p, String n _ => is_digit p && is_digit n && underscores_ok (Some c) t
        | _, _ => false
        end
      else underscores_ok (Some c) t
  end.

(** Mantissa and exponent of [digits], [digits.digits], [digits.] or
    [.digits], then an optional exponent, up to the end of the string. *)
Definition parse_decimal (s : string) : option (N * Z) :=
  let '(ip, r1) := span is_digit s in
  let '(fp, r2) :=
    match r1 with
    | String "." r => span is_digit r
    | _ => (EmptyString, r1)
    end in
  if String.eqb ip EmptyString && String.eqb fp EmptyString then None
  else
    match Decimal.parse_exponent r2 with
    | Some e => Some (digits_val (ip ++ fp), (e - Z.of_nat (String.length fp))%Z)
    | None => None
    end.

(** [float(s)] *)
Definition float_of_string (s : string) : result pyfloat :=
  let s := strip s in
  if negb (underscores_ok None s) then Raise ValueError
  else
    let s := remove_char "_" s in
    let '(neg, body) := Decimal.split_sign s in
    match parse_decimal body with
    | Some (m, e) => Ret (FNum neg m e)
    | None =>
        if String.eqb (lower body) "inf" || String.eqb (lower body) "infinity"
        then Ret (FInf neg)
        else if String.eqb (lower body) "nan" then Ret FNan
        else Raise ValueError
    end.

(** *** The normalizers *)

(** [(?:USD|CAD|EUR|GBP|\$|£|€|,)] *)
Definition re_currency : re :=
  any_of [Lit "USD"; Lit "CAD"; Lit "EUR"; Lit "GBP"; Lit "$"; Lit "£";
          Lit "€"; Lit ","].

(** [\s.*] *)
Definition re_after_space : re := Seq (Cls is_space) (Rep not_newline 0 None).

Definition value_or_type_error (e : exn) : bool :=
  match e with
  | ValueError | TypeError => true
  | _ => false
  end.

(** [parse_price(price_str)]; the argument is [None] or a string, the
    answer [None] or a float. *)
Definition parse_price (price_str : option string) : result (option pyfloat) :=
  match price_str with
  | None => Ret None
  | Some EmptyString => Ret None
  | Some price_str =>
      try_except
        (let price_str := sub_empty re_currency price_str in
         let price_str := before_first "-" price_str in
         let price_str := sub_empty re_after_space price_str in
         f <- float_of_string (strip price_str) ;;
         Ret (Some f))%py
        value_or_type_error
        (Ret None)
  end.

(** What [parse_capacity_tb] returns: the [int] of the terabytes it read,
    or the float [round(gb / 1000.0, 2)] of the gigabytes it read. *)
Inductive capacity : Type :=
| TB (n : N)
| GB_rounded (gb : N).

(** Between one and three digits, white space, [tb] or [terabyte], and a
    word boundary. *)
Definition re_tb : re :=
  cat [Grp 1 (Rep is_digit 1 (Some 3)); Rep is_space 0 None;
       Alt (Lit "tb") (Lit "terabyte"); Bnd].

(** Between three and five digits, white space, [gb] or [gigabyte], and a
    word boundary. *)
Definition re_gb : re :=
  cat [Grp 1 (Rep is_digit 3 (Some 5)); Rep is_space 0 None;
       Alt (Lit "gb") (Lit "gigabyte"); Bnd].

(** [parse_capacity_tb(title)] *)
Definition parse_capacity_tb (title : option string) : result (option capacity) :=
  match title with
  | None => Ret None
  | Some EmptyString => Ret None
  | Some title =>
      let title_lower := lower title in
      match search re_tb title_lower with
      | Some tb_match => Ret (Some (TB (digits_val (group tb_match 1))))
      | None =>
          match search re_gb title_lower with
          | Some gb_match => Ret (Some (GB_rounded (digits_val (group gb_match 1))))
          | None => Ret None
          end
      end
  end.

End Scraper.

(** * What the claims speak of *)

Module Props.

Import Text Html Crawl.





(** *** Devices of the proofs *)

(** The items [scan_items] keeps, the events it logs and the numbers it
    has seen in the end. *)
Fixpoint kept (parsed : list Item) (seen : list string) : list Item :=
  match parsed with
  | [] => []
  | i :: r =>
      if mem (number i) seen then kept r seen
      else i :: kept r (number i :: seen)
  end.

Fixpoint logged (parsed : list Item) (seen : list string) : list event :=
  match parsed with
  | [] => []
  | i :: r =>
      if mem (number i) seen then LogDuplicate (number i) :: logged r seen
      else logged r (number i :: seen)
  end.

Fixpoint seen_after (parsed : list Item) (seen : list string) : list string :=
  match parsed with
  | [] => seen
  | i :: r =>
      if mem (number i) seen then seen_after r seen
      else seen_after r (number i :: seen)
  end.

(** The order of the keys. *)
Definition le_key (a b : Item) : Prop :=
  Decimal.leb (price_per_tb a) (price_per_tb b) = true.

(** Some key is a NaN. *)
Definition has_nan (items : list Item) : bool :=
  existsb (fun i => Decimal.is_nan (price_per_tb i)) items.

(** What is known of an item that [parse_item] appends. *)
Inductive appended (container : element) (it : Item) : Prop :=
| Appended (link : element) (next : option element) (href : string)
    (quotient : Decimal.t)
    (Hfound : find_desc "a" "item-title" container = Some (link, next))
    (Hget : get link "href" = Some href)
    (Hnumber : number it = item_number_of href)
    (Hnonempty : number it <> EmptyString)
    (Htitle : title it = text_content link)
    (Hsize : exists sz, parse_size (title it) = Ret (Some (sz, size_gb it)))
    (Hdiv : Decimal.div (price it) (size_gb it) = Ret quotient)
    (Hmul : Decimal.mul quotient (Decimal.of_int 1000) = Ret (price_per_tb it)).

(** The promotion of an item reads [s]. *)
Definition promo_reads (item : element) (s : string) : Prop :=
  exists promo next,
    find_desc "p" "item-promo" item = Some (promo, next) /\
    text_content promo = s.

(** The button message of an item reads [s]. *)
Definition button_reads (item : element) (s : string) : Prop :=
  exists button next,
    find_desc "span" "btn btn-message " item = Some (button, next) /\
    text button = Some s.

End Props.

Module NumeralProps.

Import Text.

(** A capacity as a title writes it: digits, then perhaps a point and more
    digits. *)
Definition numeral_text (ip : string) (fp : option string) : string :=
  match fp with
  | None => ip
  | Some f => (ip ++ "." ++ f)%string
  end.

Definition frac (fp : option string) : string :=
  match fp with
  | None => EmptyString
  | Some f => f
  end.

Definition is_numeral (ip : string) (fp : option string) : Prop :=
  ip <> EmptyString /\ all_in is_digit ip = true /\ all_in is_digit (frac fp) = true.

(** The number a numeral denotes: its integer part plus its fractional
    part over the power of ten of its length. *)
Definition numeral_value (ip : string) (fp : option string) : Q :=
  (inject_Z (Z.of_N (digits_val ip)) +
   inject_Z (Z.of_N (digits_val (frac fp))) /
   inject_Z (10 ^ Z.of_nat (String.length (frac fp))))%Q.

(** How many digits a numeral is written with. *)
Definition digit_count (ip : string) (fp : option string) : nat :=
  String.length ip + String.length (frac fp).

(** The character before the end of [s], [prev] when [s] is empty. *)
Fixpoint last_char (prev : option ascii) (s : string) : option ascii :=
  match s with
  | EmptyString => prev
  | String c t => last_char (Some c) t
  end.

(** [s] does not begin with a character of the class [p]. *)
Definition stops (p : ascii -> bool) (s : string) : Prop :=
  match s with
  | EmptyString => True
  | String c _ => p c = false
  end.

(** The digits read so far, then [s]. *)
Definition digits_from (acc : N) (s : string) : N :=
  (fix go (acc : N) (s : string) : N :=
     match s with
     | EmptyString => acc
     | String c t => go (10 * acc + digit_val c)%N t
     end) acc s.

End NumeralProps.

(** ** Sample pages *)

Module Examples.

Import Html Crawl.

Definition el (tag cls : string) (text : option string)
    (children : list element) : element :=
  Element tag [("class", cls)] text children None.

Definition leaf (tag : string) (text : string) : element :=
  Element tag [] (Some text) [] None.

(** [<a class="item-title" href=...>title</a>] *)
Definition title_link (href title : string) : element :=
  Element "a" [("class", "item-title"); ("href", href)] (Some title) [] None.

(** [<li class="price-current">$<strong>79</strong><sup>.99</sup></li>] *)
Definition price_li (dollars cents : string) : element :=
  el "li" "price-current" (Some "$") [leaf "strong" dollars; leaf "sup" cents].

Definition container (href title : string) (body : list element) : element :=
  el "div" "item-container" None (title_link href title :: body).

Definition page (containers : list element) : element :=
  Element "html" [] None [Element "body" [] None containers None] None.

Definition product_url (item : string) : string :=
  ("https://www.newegg.com/Product/Product.aspx?Item=" ++ item)%string.

(** The three listings of the end-to-end scenario: A at $79.99 for 4TB, B
    at $49.99 for 2TB, and A again at $84.99. *)
Definition page_ABA : element :=
  page [container (product_url "A") "Acme 4TB HDD" [price_li "79" ".99"];
        container (product_url "B") "Acme 2TB HDD" [price_li "49" ".99"];
        container (product_url "A") "Acme 4TB HDD" [price_li "84" ".99"]].

Definition item_A : Item :=
  {| price := Decimal.Fin false 7999 (-2);
     title := "Acme 4TB HDD";
     size := "4TB";
     size_gb := Decimal.Fin false 4000 0;
     number := "A";
     price_per_tb := Decimal.Fin false 199975000 (-7) |}.

Definition item_B : Item :=
  {| price := Decimal.Fin false 4999 (-2);
     title := "Acme 2TB HDD";
     size := "2TB";
     size_gb := Decimal.Fin false 2000 0;
     number := "B";
     price_per_tb := Decimal.Fin false 24995000 (-6) |}.

Definition item_A_later : Item :=
  {| price := Decimal.Fin false 8499 (-2);
     title := "Acme 4TB HDD";
     size := "4TB";
     size_gb := Decimal.Fin false 4000 0;
     number := "A";
     price_per_tb := Decimal.Fin false 212475000 (-7) |}.


(** A price that is no number. *)
Definition page_no_price : element :=
  page [container (product_url "D") "Acme 4TB HDD"
          [el "li" "price-current" None [leaf "strong" "N/A"]]].

(** No current-price element at all, and the promotion says out of
    stock. *)
Definition sold_out_bare : element :=
  container (product_url "E") "Acme 4TB HDD"
    [el "p" "item-promo" (Some "OUT OF STOCK") []].

(** An empty current-price element, and the promotion says out of
    stock. *)
Definition sold_out : element :=
  container (product_url "E") "Acme 4TB HDD"
    [el "li" "price-current" None []; el "p" "item-promo" (Some "OUT OF STOCK") []].

(** A price on display, and a button that says out of stock. *)
Definition priced_but_button : element :=
  container (product_url "F") "Acme 4TB HDD"
    [price_li "79" ".99";
     el "span" "btn btn-message " (Some "Out Of Stock") []].

(** A link that ends in [Item=], followed by a sound listing. *)
Definition page_empty_number : element :=
  page [container (product_url EmptyString) "Acme 8TB HDD" [price_li "99" ".99"];
        container (product_url "B") "Acme 2TB HDD" [price_li "49" ".99"]].

(** A link without [Item=]. *)
Definition page_no_item_param : element :=
  page [container "https://www.newegg.com/p/N82E16822234344" "Acme 4TB HDD"
          [price_li "79" ".99"]].

End Examples.

(** * The rest of the code *)

(** ** crawl.py: the files of a crawl *)

Module Files.

Import Text Re.

(** The character of a digit below ten. *)
Definition digit_char (d : N) : ascii := ascii_of_N (code "0" + d).

Fixpoint decimal_fuel (fuel : nat) (n : N) (acc : string) : string :=
  match fuel with
  | O => acc
  | S f =>
      let acc' := String (digit_char (n mod 10)) acc in
      if (n <? 10)%N then acc' else decimal_fuel f (n / 10) acc'
  end.

(** [str(n)] for a natural number. *)
Definition decimal (n : N) : string :=
  decimal_fuel (S (N.to_nat (N.size n))) n EmptyString.

(** [f"{page:02d}"]: at least two digits, a zero in front of a single
    one. *)
Definition format_02d (page : N) : string :=
  if (page <? 10)%N then String "0" (decimal page) else decimal page.

(** The name of a page within its directory:
    [f"{name}_page{page:02d}.html"]. *)
Definition page_basename (name : string) (page : N) : string :=
  (name ++ "_page" ++ format_02d page ++ ".html")%string.

Fixpoint last_of (s : string) : option ascii :=
  match s with
  | EmptyString => None
  | String c EmptyString => Some c
  | String _ t => last_of t
  end.

(** [os.path.join(d, f)] on POSIX. *)
Definition path_join (d f : string) : string :=
  if String.prefix "/" f then f
  else if String.eqb d EmptyString then f
  else match last_of d with
       | Some "/"%char => (d ++ f)%string
       | _ => (d ++ "/" ++ f)%string
       end.

(** [page_filename(d, name, page)] *)
Definition page_filename (d name : string) (page : N) : string :=
  path_join d (page_basename name page).

(** [s.rfind(sub)]: the index of the last occurrence, [None] for
    Python's [-1]. *)
Fixpoint rfind (sub s : string) : option nat :=
  match s with
  | EmptyString => if String.prefix sub s then Some O else None
  | String _ t =>
      match rfind sub t with
      | Some i => Some (S i)
      | None => if String.prefix sub s then Some O else None
      end
  end.

(** [s[:n]] for [0 <= n]. *)
Fixpoint take (n : nat) (s : string) : string :=
  match n, s with
  | O, _ => EmptyString
  | S _, EmptyString => EmptyString
  | S n', String c t => String c (take n' t)
  end.

(** [s[a:b]] for [0 <= a] and [0 <= b]. *)
Definition slice (a b : nat) (s : string) : string := take (b - a) (drop a s).

(** Digits, single underscores allowed between them. *)
Fixpoint digits_underscored (prev_digit : bool) (s : string) : bool :=
  match s with
  | EmptyString => prev_digit
  | String c t =>
      if is_digit c then digits_underscored true t
      else if Ascii.eqb c "_" then prev_digit && digits_underscored false t
      else false
  end.

(** [int(s)] in base ten: white space around, an optional sign, digits. *)
Definition int_of_string (s : string) : result Z :=
  let '(neg, body) := Decimal.split_sign (strip s) in
  if digits_underscored false body then
    let v := Z.of_N (digits_val (remove_char "_" body)) in
    Ret (if neg then (- v)%Z else v)
  else Raise ValueError.

(** What [build_file_map] reads off one file name: the name of the
    category and the number of the page. *)
Definition file_entry (f : string) : result (string * Z) :=
  let '(name, digits) :=
    match rfind "_page" f with
    | Some pos => (take pos f, slice (pos + 5) (pos + 7) f)
    | None => (take (String.length f - 1) f, slice 4 6 f)
    end in
  (page <- int_of_string digits ;; Ret (name, page))%py.

(** [sorted(names)]: the order of strings is that of their characters. *)
Fixpoint insert_name (f : string) (l : list string) : list string :=
  match l with
  | [] => [f]
  | g :: r => if String.leb f g then f :: l else g :: insert_name f r
  end.

Fixpoint sorted_names (l : list string) : list string :=
  match l with
  | [] => []
  | f :: r => insert_name f (sorted_names r)
  end.

(** A [defaultdict(list)]: the keys in the order they came in, each with
    its list. *)
Definition file_map : Type := list (string * list (Z * string)).

(** [files[name].append(entry)] *)
Fixpoint append_to (name : string) (entry : Z * string) (files : file_map)
    : file_map :=
  match files with
  | [] => [(name, [entry])]
  | (k, v) :: rest =>
      if String.eqb k name then (k, v ++ [entry]) :: rest
      else (k, v) :: append_to name entry rest
  end.

(** [files[name]] when only read: the empty list for a missing key. *)
Fixpoint files_of (name : string) (files : file_map) : list (Z * string) :=
  match files with
  | [] => []
  | (k, v) :: rest => if String.eqb k name then v else files_of name rest
  end.

Fixpoint fill_map (names : list string) (files : file_map) : result file_map :=
  match names with
  | [] => Ret files
  | f :: rest =>
      (e <- file_entry f ;;
       fill_map rest (append_to (fst e) (snd e, f) files))%py
  end.

(** [build_file_map(data_dir)], given what [os.listdir(data_dir)]
    returns. *)
Definition build_file_map (listing : list string) : result file_map :=
  fill_map (sorted_names listing) [].



End Files.

(** ** hdd_price_scraper.py: the report *)

Module Report.

Import Text.

(** The double quote. *)
Definition dq : string := String (ascii_of_nat 34) EmptyString.

(** [s.replace(a, b)] for a one-character [a]. *)
Fixpoint replace_char (a : ascii) (b : string) (s : string) : string :=
  match s with
  | EmptyString => EmptyString
  | String c t =>
      if Ascii.eqb c a then (b ++ replace_char a b t)%string
      else String c (replace_char a b t)
  end.

(** [create_html_link(title, url)]; [url] is [None] or a string. *)
Definition create_html_link (title : string) (url : option string) : string :=
  match url with
  | None => title
  | Some url =>
      if String.eqb url EmptyString || negb (String.prefix "http" url)
      then title
      else
        let safe_title := replace_char (ascii_of_nat 34) dq title in
        ("<a href=" ++ dq ++ url ++ dq ++ " target=" ++ dq ++ "_blank" ++ dq
         ++ " rel=" ++ dq ++ "noopener noreferrer" ++ dq
         ++ " title=" ++ dq ++ safe_title ++ dq ++ ">" ++ title ++ "</a>")%string
  end.

End Report.

Module ReProps.

Import Re.

(** The numbers of the groups of a pattern. *)
Fixpoint ids (r : re) : list nat :=
  match r with
  | Seq a b | Alt a b => ids a ++ ids b
  | Grp n a => n :: ids a
  | _ => []
  end.

(** A length within the upper bound of a repetition, if it has one. *)
Definition within (hi : option nat) (n : nat) : Prop :=
  match hi with Some h => n <= h | None => True end.

End ReProps.

Module CapacityProps.

Import Text Crawl.






End CapacityProps.

Module DecimalProps.

Import Decimal.
Local Open Scope Z_scope.

(** A coefficient is never negative. *)
Definition wf (d : t) : Prop :=
  match d with
  | Fin _ c _ => 0 <= c
  | _ => True
  end.

(** A number within the precision of the context. *)
Definition in_prec (d : t) : Prop :=
  match d with
  | Fin _ c _ => ndigits c <= prec
  | _ => True
  end.

Definition is_fin (d : t) : bool :=
  match d with
  | Fin _ _ _ => true
  | _ => false
  end.

End DecimalProps.

Module ScraperProps.

Import Text Scraper.

(** The sign of a float; a NaN counts as unsigned. *)
Definition negative (f : pyfloat) : bool :=
  match f with
  | FNum neg _ _ => neg
  | FInf neg => neg
  | FNan => false
  end.

Definition not_space (c : ascii) : bool := negb (is_space c).

Definition not_minus (c : ascii) : bool := negb (Ascii.eqb c "-").


(** The title given, the empty string for [None]. *)
Definition or_title (title : option string) : string :=
  match title with
  | Some t => t
  | None => EmptyString
  end.

(** What [re_currency] takes out of a price. *)
Definition currency_marks : list string :=
  ["USD"; "CAD"; "EUR"; "GBP"; "$"; "£"; "€"; ","].



End ScraperProps.

Module FilesProps.

Import Text Files.

(** What follows the name of the category in the name of a page. *)
Definition page_suffix (page : N) : string :=
  ("_page" ++ format_02d page ++ ".html")%string.

(** The natural numbers below [n], in order. *)
Definition below (n : nat) : list N := List.map N.of_nat (List.seq 0 n).

(** The suffix of a page is found and read back as [expected]. *)
Definition reads_back (expected : N -> Z) (page : N) : bool :=
  match rfind "_page" (page_suffix page),
        int_of_string (slice 5 7 (page_suffix page)) with
  | Some O, Ret n => Z.eqb n (expected page)
  | _, _ => false
  end.

(** The order of [sorted] on file names. *)
Definition name_le (a b : string) : Prop := String.leb a b = true.


End FilesProps.

Module CategoryProps.

Import Html Crawl.

(** The page is parsed without an exception, and yields [items]. *)
Definition parses (page : element) (items : list Item) : Prop :=
  outcome (parse_page page) = Ret items.

(** Parsing the page raises an exception. *)
Definition fails (page : element) : Prop :=
  exists e, outcome (parse_page page) = Raise e.

End CategoryProps.

Module OrderProps.

Import Crawl.

(** The price per terabyte of the item equals [k]. *)
Definition tied (k : Decimal.t) (i : Item) : bool :=
  Decimal.eqb (price_per_tb i) k.

(** What one container adds to the items of a page. *)
Definition yield (r : option Item) : list Item :=
  match r with
  | Some it => [it]
  | None => []
  end.

(** Another item at the price and capacity of [item_B]. *)
Definition item_B_twin : Item :=
  {| price := Decimal.Fin false 4999 (-2);
     title := "Brand 2TB HDD";
     size := "2TB";
     size_gb := Decimal.Fin false 2000 0;
     number := "Z";
     price_per_tb := Decimal.Fin false 24995000 (-6) |}.

End OrderProps.

(** * Lemmas *)

Module TextFacts.

Import Text NumeralProps.

Lemma all_in_app p a b :
  all_in p (a ++ b) = all_in p a && all_in p b.
Proof.
  induction a as [|c t IH]; simpl; [reflexivity|].
  now rewrite IH, andb_assoc.
Qed.

Lemma all_in_impl (p q : ascii -> bool) s :
  (forall c, p c = true -> q c = true) -> all_in p s = true -> all_in q s = true.
Proof.
  intros Hpq. induction s as [|c t IH]; simpl; [reflexivity|].
  intros H. apply andb_true_iff in H. destruct H as [Hc Ht].
  now rewrite (Hpq c Hc), IH.
Qed.

Ltac each_char c :=
  destruct c as [[] [] [] [] [] [] [] []]; vm_compute;
  try discriminate; try (intros _; reflexivity).


Lemma digit_is_word c : is_digit c = true -> Re.word_at (String c EmptyString) = true.
Proof. each_char c. Qed.


Lemma digit_split_sign c t :
  is_digit c = true -> Decimal.split_sign (String c t) = (false, String c t).
Proof.
  each_char c.
Qed.

Lemma digit_val_bound c : is_digit c = true -> (digit_val c <= 9)%N.
Proof.
  destruct c as [[] [] [] [] [] [] [] []]; vm_compute; try discriminate;
    intros _ H; discriminate.
Qed.

Lemma digit_is_digit_or_dot c : is_digit c = true -> Crawl.digit_or_dot c = true.
Proof. each_char c. Qed.

Lemma digit_or_dot_not_space c : Crawl.digit_or_dot c = true -> is_space c = false.
Proof. each_char c. Qed.

Lemma digit_or_dot_not_underscore c :
  Crawl.digit_or_dot c = true -> Ascii.eqb c "_" = false.
Proof. each_char c. Qed.

Lemma lstrip_id s : stops is_space s -> lstrip s = s.
Proof. destruct s as [|c t]; simpl; [reflexivity | now intros ->]. Qed.

Lemma rstrip_id s : all_in (fun c => negb (is_space c)) s = true -> rstrip s = s.
Proof.
  induction s as [|c t IH]; simpl; [reflexivity|].
  intros H. apply andb_true_iff in H. destruct H as [Hc Ht].
  rewrite (IH Ht). destruct t; [|reflexivity].
  apply negb_true_iff in Hc. now rewrite Hc.
Qed.

Lemma strip_id s : all_in (fun c => negb (is_space c)) s = true -> strip s = s.
Proof.
  intros H. unfold strip. rewrite lstrip_id; [now apply rstrip_id|].
  destruct s as [|c t]; simpl in *; [exact I|].
  apply andb_true_iff in H. now apply negb_true_iff.
Qed.

Lemma remove_char_id x s :
  all_in (fun c => negb (Ascii.eqb c x)) s = true -> remove_char x s = s.
Proof.
  induction s as [|c t IH]; simpl; [reflexivity|].
  intros H. apply andb_true_iff in H. destruct H as [Hc Ht].
  apply negb_true_iff in Hc. now rewrite Hc, IH.
Qed.

Lemma span_all p a b :
  all_in p a = true -> stops p b -> span p (a ++ b) = (a, b).
Proof.
  intros Ha Hb. induction a as [|c t IH]; simpl in *.
  - destruct b as [|c t]; simpl in *; [reflexivity | now rewrite Hb].
  - apply andb_true_iff in Ha. destruct Ha as [Hc Ht].
    now rewrite Hc, (IH Ht).
Qed.

Lemma span_all_end p a : all_in p a = true -> span p a = (a, EmptyString).
Proof.
  intros H. rewrite <- (span_all p a EmptyString H I).
  f_equal. clear H. induction a as [|c t IH]; simpl; [reflexivity | now rewrite <- IH].
Qed.

Lemma app_empty_r (s : string) : (s ++ EmptyString)%string = s.
Proof. induction s as [|c t IH]; simpl; [reflexivity | now rewrite IH]. Qed.

Lemma append_assoc (a b c : string) : ((a ++ b) ++ c = a ++ (b ++ c))%string.
Proof. induction a as [|x t IH]; simpl; [reflexivity | now rewrite IH]. Qed.

Lemma length_append (a b : string) :
  String.length (a ++ b) = String.length a + String.length b.
Proof. induction a as [|x t IH]; simpl; [reflexivity | now rewrite IH]. Qed.

Lemma substring_prefix (a b : string) :
  substring 0 (String.length a) (a ++ b) = a.
Proof.
  induction a as [|x t IH]; simpl.
  - now destruct b.
  - now rewrite IH.
Qed.

Lemma digits_from_app a : forall acc b,
  digits_from acc (a ++ b) = digits_from (digits_from acc a) b.
Proof. induction a as [|c t IH]; intros acc b; simpl; [reflexivity | apply IH]. Qed.

Lemma digits_from_acc s : forall acc,
  digits_from acc s = (acc * 10 ^ N.of_nat (String.length s) + digits_from 0 s)%N.
Proof.
  induction s as [|c t IH]; intros acc.
  - simpl. lia.
  - cbn [digits_from String.length]. fold (digits_from (10 * acc + digit_val c) t).
    fold (digits_from (10 * 0 + digit_val c) t).
    rewrite IH, (IH (10 * 0 + digit_val c)%N).
    rewrite Nat2N.inj_succ, N.pow_succ_r'. lia.
Qed.

Lemma digits_val_app a b :
  digits_val (a ++ b) =
  (digits_val a * 10 ^ N.of_nat (String.length b) + digits_val b)%N.
Proof.
  change (digits_from 0 (a ++ b) =
          (digits_from 0 a * 10 ^ N.of_nat (String.length b) + digits_from 0 b)%N).
  now rewrite digits_from_app, digits_from_acc.
Qed.

Lemma digits_from_bound s : forall acc,
  all_in is_digit s = true ->
  (digits_from acc s < (acc + 1) * 10 ^ N.of_nat (String.length s))%N.
Proof.
  induction s as [|c t IH]; intros acc H.
  - simpl. lia.
  - cbn [all_in] in H. apply andb_true_iff in H. destruct H as [Hc Ht].
    cbn [digits_from String.length]. fold (digits_from (10 * acc + digit_val c) t).
    specialize (IH (10 * acc + digit_val c)%N Ht).
    apply digit_val_bound in Hc.
    rewrite Nat2N.inj_succ, N.pow_succ_r'.
    eapply N.lt_le_trans; [exact IH|]. nia.
Qed.

Lemma digits_val_bound s :
  all_in is_digit s = true -> (digits_val s < 10 ^ N.of_nat (String.length s))%N.
Proof.
  intros H. change (digits_val s) with (digits_from 0 s).
  pose proof (digits_from_bound s 0%N H). lia.
Qed.

End TextFacts.

Module ReFacts.

Import Text Re NumeralProps TextFacts.

(** A greedy repetition over a run of its class takes the whole run when
    the rest of the pattern then succeeds. *)
Lemma rep_greedy {R : Type} (p : ascii -> bool) (a b : string) (g : groups)
    (k : kont R) (r : R) :
  all_in p a = true -> stops p b ->
  forall lo prev pos,
    lo <= String.length a ->
    k (last_char prev a) b (pos + String.length a) g = Some r ->
    rep p lo None prev (a ++ b) pos g k = Some r.
Proof.
  intros Ha Hb. induction a as [|c t IH]; intros lo prev pos Hlo Hk.
  - simpl in *. assert (lo = 0) as -> by lia. rewrite Nat.add_0_r in Hk.
    destruct b as [|c t]; simpl in *; [exact Hk | now rewrite Hb].
  - simpl in Ha. apply andb_true_iff in Ha. destruct Ha as [Hc Ht].
    cbn [append rep]. rewrite Hc. cbn [option_map].
    rewrite (IH Ht (pred lo) (Some c) (S pos)); [reflexivity | simpl in Hlo; lia |].
    simpl in Hk. now rewrite Nat.add_succ_r in Hk.
Qed.

Lemma search_size1 (a : string) (u : ascii) :
  all_in Crawl.digit_or_dot a = true -> word_at a = true ->
  u = "T"%char \/ u = "G"%char ->
  search Crawl.re_size1 (a ++ String u "B") =
  Some {| m_start := 0;
          m_end := S (S (String.length a));
          m_groups := [(2, String u EmptyString); (1, a)] |}.
Proof.
  intros Ha Hw Hu. unfold search.
  assert (match_at Crawl.re_size1 None (a ++ String u "B") 0 =
          Some {| m_start := 0;
                  m_end := S (S (String.length a));
                  m_groups := [(2, String u EmptyString); (1, a)] |}) as E.
  { unfold match_at, Crawl.re_size1. cbn [cat run].
    assert (word_at (a ++ String u "B") = true) as ->.
    { destruct a; [discriminate | exact Hw]. }
    cbn [word_before xorb].
    apply rep_greedy.
    - exact Ha.
    - destruct Hu as [-> | ->]; reflexivity.
    - destruct a; [discriminate | simpl; lia].
    - destruct Hu as [-> | ->]; cbn -[Nat.sub substring];
        rewrite Nat.sub_0_r, substring_prefix;
        replace (S (String.length a) - String.length a) with 1 by lia;
        reflexivity. }
  destruct a as [|c t]; [discriminate|].
  cbn [append search_from]. cbn [append] in E. now rewrite E.
Qed.

End ReFacts.

Module DecimalFacts.

Import Text NumeralProps TextFacts Decimal.
Local Open Scope Z_scope.

(** *** Reading a numeral *)

Lemma numeral_text_eq ip fp :
  numeral_text ip fp = (ip ++ match fp with None => EmptyString | Some f => String "." f end)%string.
Proof. destruct fp; simpl; [reflexivity | now rewrite app_empty_r]. Qed.

Lemma numeral_digit_or_dot ip fp :
  is_numeral ip fp -> all_in Crawl.digit_or_dot (numeral_text ip fp) = true.
Proof.
  intros [_ [Hi Hf]]. rewrite numeral_text_eq, all_in_app.
  rewrite (all_in_impl _ _ _ digit_is_digit_or_dot Hi). simpl.
  destruct fp as [f|]; simpl in *; [|reflexivity].
  exact (all_in_impl _ _ _ digit_is_digit_or_dot Hf).
Qed.

Lemma numeral_starts ip fp :
  is_numeral ip fp ->
  exists c t, numeral_text ip fp = String c t /\ is_digit c = true.
Proof.
  intros [Hne [Hi _]]. rewrite numeral_text_eq.
  destruct ip as [|c t]; [congruence|]. simpl in Hi.
  apply andb_true_iff in Hi. exists c. eexists. split; [reflexivity | apply Hi].
Qed.

Lemma parse_number_numeral ip fp :
  is_numeral ip fp ->
  parse_number (numeral_text ip fp) =
  Some (Z.of_N (digits_val (ip ++ frac fp)), - Z.of_nat (String.length (frac fp))).
Proof.
  intros [Hne [Hi Hf]]. unfold parse_number. rewrite numeral_text_eq.
  rewrite (span_all is_digit ip _ Hi) by (destruct fp; simpl; trivial).
  assert (String.eqb ip EmptyString = false) as E by now apply String.eqb_neq.
  destruct fp as [f|]; simpl frac in *.
  - rewrite (span_all_end is_digit f Hf), E. reflexivity.
  - rewrite E. simpl. now rewrite app_empty_r.
Qed.

Lemma of_string_numeral ip fp :
  is_numeral ip fp ->
  of_string (numeral_text ip fp) =
  Ret (Fin false (Z.of_N (digits_val (ip ++ frac fp)))
         (- Z.of_nat (String.length (frac fp)))).
Proof.
  intros H. unfold of_string.
  pose proof (numeral_digit_or_dot ip fp H) as Hd.
  rewrite strip_id.
  2:{ eapply all_in_impl; [|exact Hd]. intros c Hc.
      now rewrite (digit_or_dot_not_space c Hc). }
  rewrite remove_char_id.
  2:{ eapply all_in_impl; [|exact Hd]. intros c Hc.
      now rewrite (digit_or_dot_not_underscore c Hc). }
  destruct (numeral_starts ip fp H) as [c [t [E Hc]]].
  rewrite E at 1. rewrite (digit_split_sign c t Hc), <- E.
  now rewrite (parse_number_numeral ip fp H).
Qed.

(** *** Counting digits *)

Lemma ndigits_fuel_spec fuel : forall n,
  0 < n < 2 ^ Z.of_nat fuel ->
  10 ^ (ndigits_fuel fuel n - 1) <= n < 10 ^ ndigits_fuel fuel n /\
  1 <= ndigits_fuel fuel n.
Proof.
  induction fuel as [|f IH]; intros n Hn.
  - simpl in Hn. lia.
  - cbn [ndigits_fuel]. destruct (Z.ltb_spec n 10) as [Hlt|Hge].
    + simpl. lia.
    + assert (0 < n / 10 < 2 ^ Z.of_nat f) as Hq.
      { rewrite Nat2Z.inj_succ, Z.pow_succ_r in Hn by lia.
        split; [apply Z.div_str_pos; lia|].
        apply Z.div_lt_upper_bound; lia. }
      destruct (IH (n / 10) Hq) as [[Hlo Hhi] H1].
      replace (1 + ndigits_fuel f (n / 10) - 1) with
        (Z.succ (ndigits_fuel f (n / 10) - 1)) by lia.
      replace (1 + ndigits_fuel f (n / 10)) with
        (Z.succ (ndigits_fuel f (n / 10))) by lia.
      rewrite !Z.pow_succ_r by lia.
      pose proof (Z.div_mod n 10 ltac:(lia)) as Hdm.
      pose proof (Z.mod_pos_bound n 10 ltac:(lia)) as Hm.
      lia.
Qed.

Lemma ndigits_spec n :
  0 < n -> 10 ^ (ndigits n - 1) <= n < 10 ^ ndigits n /\ 1 <= ndigits n.
Proof.
  intros Hn. unfold ndigits. apply ndigits_fuel_spec.
  split; [exact Hn|].
  rewrite Nat2Z.inj_succ, Z2Nat.id by apply Z.log2_nonneg.
  apply Z.log2_spec. exact Hn.
Qed.

Lemma ndigits_le n k : 0 < n -> 0 <= k -> n < 10 ^ k -> ndigits n <= k.
Proof.
  intros Hn Hk Hlt. destruct (ndigits_spec n Hn) as [[Hlo _] H1].
  destruct (Z.le_gt_cases (ndigits n) k) as [|Hgt]; [assumption|].
  assert (10 ^ k <= 10 ^ (ndigits n - 1)) by (apply Z.pow_le_mono_r; lia).
  lia.
Qed.

Lemma ndigits_ge n k : 0 < n -> 0 <= k -> 10 ^ k <= n -> k < ndigits n.
Proof.
  intros Hn Hk Hle. destruct (ndigits_spec n Hn) as [[_ Hhi] H1].
  destruct (Z.lt_ge_cases k (ndigits n)) as [|Hge]; [assumption|].
  assert (10 ^ ndigits n <= 10 ^ k) by (apply Z.pow_le_mono_r; lia).
  lia.
Qed.

End DecimalFacts.

Module ScaleFacts.

Import Decimal DecimalFacts.
Local Open Scope Z_scope.

Lemma mul_1000 s c e :
  mul (Fin s c e) (of_int 1000) = fix_ (Fin s (c * 1000) e).
Proof.
  unfold mul, of_int. simpl. now rewrite xorb_false_r, Z.add_0_r.
Qed.

(** A coefficient of at most 28 digits times 1000 is kept exactly: the
    rounding, if there is one, cuts zeros only. *)
Lemma fix_1000_exact s c e :
  0 <= c < 10 ^ 28 -> -1000 <= e <= 1000 ->
  exists c' e',
    fix_ (Fin s (c * 1000) e) = Ret (Fin s c' e') /\
    e <= e' /\ c' * 10 ^ (e' - e) = c * 1000.
Proof.
  intros Hc He. unfold fix_.
  destruct (Z.eqb_spec (c * 1000) 0) as [E0|N0].
  - exists 0, e. split; [|split; [lia|lia]].
    unfold Etiny, Emin, Emax, prec. do 2 f_equal. lia.
  - assert (0 < c * 1000) as Hpos by lia.
    assert (3 < ndigits (c * 1000)) as Hlo
      by (apply ndigits_ge; [lia | lia | change (10 ^ 3) with 1000; lia]).
    assert (ndigits (c * 1000) <= 31) as Hhi.
    { apply ndigits_le; [lia | lia |].
      change (10 ^ 31) with (10 ^ 28 * 1000). lia. }
    destruct (ndigits_spec (c * 1000) Hpos) as [[Hl Hh] _].
    set (L := ndigits (c * 1000)) in *.
    unfold Etop, Etiny, Emin, Emax, prec.
    destruct (Z.ltb_spec (999999 - 28 + 1) (L + e - 28)) as [?|_]; [lia|].
    destruct (Z.ltb_spec (L + e - 28) (-999999 - 28 + 1)) as [?|_]; [lia|].
    destruct (Z.ltb_spec e (L + e - 28)) as [Hround|Hkeep].
    + destruct (Z.ltb_spec (L + e - (L + e - 28)) 0) as [?|_]; [lia|].
      replace (L - (L + e - (L + e - 28))) with (L - 28) by lia.
      assert (L = 29 \/ L = 30 \/ L = 31) as HL by lia.
      assert (10 ^ (L - 28) = 10 \/ 10 ^ (L - 28) = 100 \/ 10 ^ (L - 28) = 1000)
        as HP by (destruct HL as [E | [E | E]]; rewrite E; auto).
      assert (L - 28 + 28 = L) as HLL by lia.
      assert (10 ^ L = 10 ^ (L - 28) * 10 ^ 28) as Hsplit
        by (rewrite <- Z.pow_add_r, HLL by lia; reflexivity).
      change (10 ^ 28) with 10000000000000000000000000000 in *.
      assert (rounds_up (c * 1000) (L - 28) = false) as ->.
      { unfold rounds_up. cbv zeta. apply orb_false_iff. split.
        - apply Z.ltb_ge.
          destruct HP as [-> | [-> | ->]]; Z.to_euclidean_division_equations; lia.
        - apply andb_false_iff. left. apply Z.eqb_neq.
          destruct HP as [-> | [-> | ->]]; Z.to_euclidean_division_equations; lia. }
      assert (0 < c * 1000 / 10 ^ (L - 28) < 10000000000000000000000000000 /\
              c * 1000 / 10 ^ (L - 28) * 10 ^ (L - 28) = c * 1000) as [Hk Hx].
      { rewrite Hsplit in Hh. clear Hsplit Hl.
        destruct HP as [E | [E | E]]; rewrite E in *;
          Z.to_euclidean_division_equations; lia. }
      change 10000000000000000000000000000 with (10 ^ 28) in *.
      assert (ndigits (c * 1000 / 10 ^ (L - 28)) <= 28) as Hd
        by (apply ndigits_le; lia).
      destruct (Z.ltb_spec 28 (ndigits (c * 1000 / 10 ^ (L - 28)))) as [?|_];
        [lia|].
      destruct (Z.ltb_spec (999999 - 28 + 1) (L + e - 28)) as [?|_]; [lia|].
      exists (c * 1000 / 10 ^ (L - 28)), (L + e - 28).
      split; [reflexivity|]. split; [lia|].
      replace (L + e - 28 - e) with (L - 28) by lia. exact Hx.
    + exists (c * 1000), e. split; [reflexivity|]. split; [lia|].
      rewrite Z.sub_diag. simpl. lia.
Qed.

(** *** Values *)

Lemma ten_nonzero : ~ (inject_Z 10 == 0)%Q.
Proof. discriminate. Qed.

Lemma to_Q_scaled s c e c' e' k :
  e <= e' -> c' * 10 ^ (e' - e) = c * k ->
  (to_Q s c' e' == to_Q s c e * inject_Z k)%Q.
Proof.
  intros He Hc. unfold to_Q.
  assert ((if s then - c' else c') * 10 ^ (e' - e) = (if s then - c else c) * k)
    as Hs by (destruct s; lia).
  assert (inject_Z 10 ^ e' == inject_Z 10 ^ e * inject_Z (10 ^ (e' - e)))%Q as ->.
  { rewrite (Zpower_Qpower 10 (e' - e)) by lia.
    rewrite <- Qpower_plus by exact ten_nonzero.
    replace (e + (e' - e)) with e' by lia. reflexivity. }
  transitivity (inject_Z ((if s then - c' else c') * 10 ^ (e' - e)) *
                inject_Z 10 ^ e)%Q.
  - rewrite inject_Z_mult. ring.
  - rewrite Hs, inject_Z_mult. ring.
Qed.

End ScaleFacts.

(** ** Deduplication and ranking *)

Module RankFacts.

Import Crawl Props.

Lemma scan_items_eq parsed : forall seen items,
  scan_items parsed seen items =
  (logged parsed seen, Ret (seen_after parsed seen, items ++ kept parsed seen)).
Proof.
  induction parsed as [|i r IH]; intros seen items; simpl.
  - unfold ret. now rewrite app_nil_r.
  - destruct (mem (number i) seen).
    + rewrite IH. reflexivity.
    + rewrite IH, <- app_assoc. reflexivity.
Qed.

Lemma mem_cons n m seen :
  mem n (m :: seen) = String.eqb n m || mem n seen.
Proof. reflexivity. Qed.

Lemma kept_fresh parsed : forall seen y,
  In y (kept parsed seen) -> mem (number y) seen = false.
Proof.
  induction parsed as [|i r IH]; intros seen y H; simpl in H.
  - contradiction.
  - destruct (mem (number i) seen) eqn:E.
    + now apply IH.
    + destruct H as [<- | H]; [exact E|].
      apply IH in H. rewrite mem_cons in H.
      now apply orb_false_iff in H.
Qed.

Lemma kept_NoDup parsed : forall seen, NoDup (map number (kept parsed seen)).
Proof.
  induction parsed as [|i r IH]; intros seen; simpl.
  - constructor.
  - destruct (mem (number i) seen); [apply IH|].
    simpl. constructor; [|apply IH].
    intros H. apply in_map_iff in H. destruct H as [y [Hy Hin]].
    apply kept_fresh in Hin. rewrite mem_cons, Hy, String.eqb_refl in Hin.
    discriminate.
Qed.

Lemma mem_false_notin n seen : mem n seen = false -> ~ In n seen.
Proof.
  unfold mem. intros H Hin.
  assert (existsb (String.eqb n) seen = true) as E.
  { apply existsb_exists. exists n. split; [exact Hin | apply String.eqb_refl]. }
  congruence.
Qed.

Lemma notin_mem_false n seen : ~ In n seen -> mem n seen = false.
Proof.
  unfold mem. intros H. destruct (existsb (String.eqb n) seen) eqn:E; [|reflexivity].
  apply existsb_exists in E. destruct E as [m [Hin Hm]].
  apply String.eqb_eq in Hm. subst m. contradiction.
Qed.

(** A sequence without a repeated number is kept whole and logs
    nothing. *)
Lemma kept_id l : forall seen,
  NoDup (map number l) -> (forall y, In y l -> mem (number y) seen = false) ->
  kept l seen = l /\ logged l seen = [].
Proof.
  induction l as [|i r IH]; intros seen Hnd Hfresh; simpl.
  - split; reflexivity.
  - rewrite (Hfresh i (or_introl eq_refl)).
    inversion Hnd as [|? ? Hni Hnd']; subst.
    destruct (IH (number i :: seen) Hnd') as [Hk Hl].
    + intros y Hy. rewrite mem_cons. apply orb_false_iff. split.
      * apply String.eqb_neq. intros E. apply Hni. rewrite <- E.
        now apply in_map.
      * apply Hfresh. now right.
    + now rewrite Hk, Hl.
Qed.


(** *** The order of decimals *)

Lemma place_leb_total x y :
  Decimal.place_leb x y = false -> Decimal.place_leb y x = true.
Proof.
  unfold Decimal.place_leb. intros H.
  apply orb_false_iff in H. destruct H as [H1 H2].
  apply Z.ltb_ge in H1.
  destruct (Z.eqb_spec (fst x) (fst y)) as [E|E].
  - simpl in H2. rewrite E, Z.eqb_refl, Z.ltb_irrefl. simpl.
    apply Qle_bool_iff.
    destruct (Qlt_le_dec (snd y) (snd x)) as [L|L].
    + now apply Qlt_le_weak.
    + apply Qle_bool_iff in L. congruence.
  - assert ((fst y <? fst x)%Z = true) as -> by (apply Z.ltb_lt; lia).
    reflexivity.
Qed.

Lemma leb_total a b : Decimal.leb a b = false -> Decimal.leb b a = true.
Proof. apply place_leb_total. Qed.

(** *** The stable sort *)

Lemma insert_perm x l : Permutation (x :: l) (insert x l).
Proof.
  induction l as [|y r IH]; simpl.
  - apply Permutation_refl.
  - destruct (Decimal.leb (price_per_tb x) (price_per_tb y)).
    + apply Permutation_refl.
    + eapply perm_trans; [apply perm_swap|]. now apply perm_skip.
Qed.

Lemma stable_sort_perm l : Permutation l (stable_sort l).
Proof.
  induction l as [|x r IH]; simpl.
  - constructor.
  - eapply perm_trans; [apply perm_skip, IH | apply insert_perm].
Qed.

Lemma insert_sorted x l : Sorted le_key l -> Sorted le_key (insert x l).
Proof.
  induction l as [|y r IH]; intros Hs; simpl.
  - repeat constructor.
  - destruct (Decimal.leb (price_per_tb x) (price_per_tb y)) eqn:E.
    + constructor; [exact Hs | constructor; exact E].
    + apply Sorted_inv in Hs. destruct Hs as [Hr Hhd].
      constructor; [now apply IH|].
      destruct r as [|z r']; simpl.
      * constructor. now apply leb_total.
      * destruct (Decimal.leb (price_per_tb x) (price_per_tb z)).
        -- constructor. now apply leb_total.
        -- constructor. now inversion Hhd.
Qed.

Lemma stable_sort_sorted l : Sorted le_key (stable_sort l).
Proof.
  induction l as [|x r IH]; simpl; [constructor | now apply insert_sorted].
Qed.

(** Sorting what is sorted moves nothing. *)
Lemma stable_sort_id l : Sorted le_key l -> stable_sort l = l.
Proof.
  induction l as [|x r IH]; intros Hs; simpl; [reflexivity|].
  apply Sorted_inv in Hs. destruct Hs as [Hr Hhd].
  rewrite (IH Hr). destruct Hhd as [|y r' Hxy]; simpl; [reflexivity|].
  unfold le_key in Hxy. now rewrite Hxy.
Qed.



Lemma existsb_perm {A : Type} (p : A -> bool) l l' :
  Permutation l l' -> existsb p l = existsb p l'.
Proof.
  intros H.
  destruct (existsb p l) eqn:E, (existsb p l') eqn:E'; try reflexivity.
  - apply existsb_exists in E. destruct E as [x [Hin Hp]].
    assert (existsb p l' = true) as F.
    { apply existsb_exists. exists x. split; [|exact Hp].
      now apply (Permutation_in _ H). }
    congruence.
  - apply existsb_exists in E'. destruct E' as [x [Hin Hp]].
    assert (existsb p l = true) as F.
    { apply existsb_exists. exists x. split; [|exact Hp].
      apply (Permutation_in _ (Permutation_sym H)). exact Hin. }
    congruence.
Qed.

(** *** The whole round *)

Lemma dedupe_and_rank_eq listings :
  dedupe_and_rank listings =
  (logged listings [], sort_by_price_per_tb (kept listings [])).
Proof.
  unfold dedupe_and_rank. rewrite scan_items_eq. simpl.
  unfold lift. now rewrite app_nil_r.
Qed.

Lemma sort_returns items out :
  sort_by_price_per_tb items = Ret out ->
  out = stable_sort items /\
  ((2 <=? length items)%nat && has_nan items = false).
Proof.
  unfold sort_by_price_per_tb, has_nan.
  destruct ((2 <=? length items)%nat && _); [discriminate|].
  intros H. inversion H. split; reflexivity.
Qed.


Lemma kept_incl parsed : forall seen y, In y (kept parsed seen) -> In y parsed.
Proof.
  induction parsed as [|i r IH]; intros seen y H; simpl in H; [contradiction|].
  destruct (mem (number i) seen).
  - right. eapply IH; eassumption.
  - destruct H as [<- | H]; [now left | right; eapply IH; eassumption].
Qed.


End RankFacts.

(** ** Extraction *)

Module ExtractFacts.

Import Text Html Crawl Props.

Lemma outcome_bind_ret {A B : Type} (m : io A) (f : A -> io B) (b : B) :
  outcome (bind m f) = Ret b ->
  exists a, outcome m = Ret a /\ outcome (f a) = Ret b.
Proof.
  destruct m as [l [a|e]]; unfold outcome; simpl.
  - destruct (f a) as [l' r] eqn:E. simpl. intros ->. exists a.
    now rewrite E.
  - discriminate.
Qed.

Lemma outcome_bind_raise {A B : Type} (m : io A) (f : A -> io B) (e : exn) :
  outcome m = Raise e -> outcome (bind m f) = Raise e.
Proof.
  destruct m as [l [a|e']]; unfold outcome; simpl; [discriminate|].
  now intros [= ->].
Qed.

Lemma outcome_bind_step {A B : Type} (m : io A) (f : A -> io B) (a : A) :
  outcome m = Ret a -> outcome (bind m f) = outcome (f a).
Proof.
  destruct m as [l [a'|e]]; unfold outcome; simpl; [|discriminate].
  intros [= ->]. now destruct (f a).
Qed.

Lemma outcome_lift {A : Type} (r : result A) : outcome (lift r) = r.
Proof. reflexivity. Qed.

Lemma outcome_price_of_text s p :
  outcome (price_of_text s) = Ret p ->
  Decimal.of_string (remove_char "," s) = Ret p.
Proof.
  unfold price_of_text.
  destruct (Decimal.of_string (remove_char "," s)) as [q|[]]; simpl;
    congruence.
Qed.

Ltac step H a Ha :=
  apply outcome_bind_ret in H; destruct H as [a [Ha H]].

Lemma parse_item_appended container it :
  outcome (parse_item container) = Ret (Some it) -> appended container it.
Proof.
  unfold parse_item. intros H.
  destruct (find_desc "a" "item-title" container) as [[link nx]|] eqn:Hfind;
    [|discriminate].
  destruct (get link "href") as [href|] eqn:Hget; [|discriminate].
  step H u1 Hu1. step H u2 Hassert.
  unfold assert in Hassert.
  destruct (String.eqb (item_number_of href) EmptyString) eqn:Hnum;
    [discriminate|].
  step H skip Hskip. destruct skip; [discriminate|].
  destruct (match find_desc_child "li" "price-current" "strong" container with
            | Some (dollars, _) => text_is (text dollars) "COMING SOON"
            | None => false
            end); [discriminate|].
  destruct (negb _ && _); [discriminate|].
  destruct (match find_desc_child "li" "price-current" "strong" container with
            | Some d => Some d
            | None => find_desc_child "li" "price-current " "strong" container
            end) as [[dollars cents]|].
  2:{ step H u3 Hu3. step H u4 Hu4. discriminate. }
  step H price_str Hstr. step H p Hprice. step H sz Hsz.
  destruct sz as [[sz gb]|]; [|discriminate].
  step H q Hq. step H ppt Hppt.
  unfold ret, outcome in H; simpl in H. injection H as <-.
  rewrite outcome_lift in Hsz. rewrite outcome_lift in Hq.
  rewrite outcome_lift in Hppt.
  econstructor; simpl; try eassumption; try reflexivity.
  - now apply String.eqb_neq.
  - now exists sz.
Qed.

Lemma parse_items_ret containers : forall acc items,
  outcome (parse_items containers acc) = Ret items ->
  exists new,
    items = acc ++ new /\
    Forall (fun it => exists c, In c containers /\
                                outcome (parse_item c) = Ret (Some it)) new.
Proof.
  induction containers as [|c rest IH]; intros acc items H; simpl in H.
  - unfold ret, outcome in H; simpl in H. injection H as <-.
    exists []. split; [now rewrite app_nil_r | constructor].
  - step H a Ha. apply IH in H. destruct H as [new [-> Hnew]].
    assert (Forall (fun it => exists c0, In c0 (c :: rest) /\
                      outcome (parse_item c0) = Ret (Some it)) new) as Hnew'.
    { eapply Forall_impl; [|exact Hnew]. intros it [c0 [Hin Hc0]].
      exists c0. split; [now right | exact Hc0]. }
    destruct a as [it|].
    + exists (it :: new). split; [now rewrite <- app_assoc|].
      constructor; [|exact Hnew']. exists c. split; [now left | exact Ha].
    + now exists new.
Qed.

(** Every item of a parsed page was appended for one of its containers. *)
Lemma parse_page_appended root items :
  outcome (parse_page root) = Ret items ->
  Forall (fun it => exists c,
            In c (xpath_div_class_contains "item-container" root) /\
            appended c it) items.
Proof.
  unfold parse_page. intros H. apply parse_items_ret in H.
  destruct H as [new [-> Hnew]]. simpl.
  eapply Forall_impl; [|exact Hnew]. intros it [c [Hin Hc]].
  exists c. split; [exact Hin | now apply parse_item_appended].
Qed.

(** An exception in one container ends the page. *)
Lemma parse_items_raise containers : forall acc c e,
  In c containers -> outcome (parse_item c) = Raise e ->
  exists e', outcome (parse_items containers acc) = Raise e'.
Proof.
  induction containers as [|c0 rest IH]; intros acc c e Hin Hc; simpl.
  - contradiction.
  - destruct (outcome (parse_item c0)) as [r|e0] eqn:E0.
    + rewrite (outcome_bind_step _ _ _ E0).
      destruct Hin as [-> | Hin]; [congruence|].
      eapply IH; eassumption.
    + exists e0. now apply outcome_bind_raise.
Qed.

End ExtractFacts.

(** * The claims *)

(** ** Claims on the capacity of a title *)

Module CapacityClaims.

Import Text Re NumeralProps TextFacts ReFacts Decimal DecimalFacts ScaleFacts.
Import Crawl.
Local Open Scope Z_scope.

Lemma numeral_word_at ip fp :
  is_numeral ip fp -> word_at (numeral_text ip fp) = true.
Proof.
  intros H. destruct (numeral_starts ip fp H) as [c [t [-> Hc]]].
  exact (digit_is_word c Hc).
Qed.

Lemma numeral_coeff_bound ip fp :
  is_numeral ip fp -> (digit_count ip fp <= 28)%nat ->
  0 <= Z.of_N (digits_val (ip ++ frac fp)) < 10 ^ 28.
Proof.
  intros [_ [Hi Hf]] Hn. split; [lia|].
  assert (all_in is_digit (ip ++ frac fp) = true) as Hd
    by now rewrite all_in_app, Hi, Hf.
  apply digits_val_bound in Hd. rewrite length_append in Hd.
  fold (digit_count ip fp) in Hd.
  apply N2Z.inj_lt in Hd. rewrite N2Z.inj_pow in Hd. simpl Z.of_N in Hd.
  rewrite nat_N_Z in Hd.
  eapply Z.lt_le_trans; [exact Hd|]. apply Z.pow_le_mono_r; lia.
Qed.

(** The decimal read from a numeral denotes the number the numeral
    denotes. *)
Lemma numeral_to_Q ip fp :
  (to_Q false (Z.of_N (digits_val (ip ++ frac fp)))
     (- Z.of_nat (String.length (frac fp))) == numeral_value ip fp)%Q.
Proof.
  unfold to_Q, numeral_value. rewrite digits_val_app.
  set (k := String.length (frac fp)).
  rewrite N2Z.inj_add, N2Z.inj_mul, N2Z.inj_pow, nat_N_Z. simpl (Z.of_N 10).
  rewrite Qpower_opp, <- (Zpower_Qpower 10 (Z.of_nat k)) by lia.
  rewrite inject_Z_plus, inject_Z_mult.
  assert (~ inject_Z (10 ^ Z.of_nat k) == 0)%Q as Hnz.
  { assert (0 < 10 ^ Z.of_nat k) as Hp by (apply Z.pow_pos_nonneg; lia).
    intros E. apply (Qeq_bool_neq (inject_Z (10 ^ Z.of_nat k)) 0); [|exact E].
    unfold Qeq_bool, inject_Z. simpl. apply Z.eqb_neq. lia. }
  field. exact Hnz.
Qed.

Lemma parse_size_numeral ip fp (u : ascii) :
  is_numeral ip fp -> u = "T"%char \/ u = "G"%char ->
  parse_size (numeral_text ip fp ++ String u "B") =
  rbind
    (if Ascii.eqb u "T"
     then mul (Fin false (Z.of_N (digits_val (ip ++ frac fp)))
                 (- Z.of_nat (String.length (frac fp))))
              (of_int 1000)
     else Ret (Fin false (Z.of_N (digits_val (ip ++ frac fp)))
                 (- Z.of_nat (String.length (frac fp)))))
    (fun d => Ret (Some ((numeral_text ip fp ++ String u "B")%string, d))).
Proof.
  intros H Hu. unfold parse_size.
  rewrite (search_size1 _ u (numeral_digit_or_dot ip fp H) (numeral_word_at ip fp H) Hu).
  unfold group. cbn [m_groups lookup Nat.eqb].
  rewrite (of_string_numeral ip fp H). cbn [rbind].
  destruct Hu as [-> | ->]; reflexivity.
Qed.

(** C1, as the code has it.  For a capacity written as digits, then
    perhaps a point and more digits: followed by [TB] and written with at
    most 28 digits it is read as that number times 1000 gigabytes;
    followed by [GB] it is read as that number of gigabytes; [6Gb/s] is
    no capacity; [1.92TB] is 1920 gigabytes. *)
Theorem capacity_of_numeral (ip : string) (fp : option string) :
  is_numeral ip fp ->
  ((digit_count ip fp <= 28)%nat ->
   exists d v,
     parse_size (numeral_text ip fp ++ "TB") =
       Ret (Some ((numeral_text ip fp ++ "TB")%string, d)) /\
     value d = Some v /\ (v == numeral_value ip fp * 1000)%Q) /\
  (exists d v,
     parse_size (numeral_text ip fp ++ "GB") =
       Ret (Some ((numeral_text ip fp ++ "GB")%string, d)) /\
     value d = Some v /\ (v == numeral_value ip fp)%Q) /\
  parse_size "6Gb/s" = Ret None /\
  (exists d v,
     parse_size "1.92TB" = Ret (Some ("1.92TB"%string, d)) /\
     value d = Some v /\ (v == 1920)%Q).
Proof.
  intros H. split; [|split; [|split]].
  - intros Hn.
    destruct (fix_1000_exact false _ (- Z.of_nat (String.length (frac fp)))
                (numeral_coeff_bound ip fp H Hn)) as [c' [e' [Hfix [He Hc]]]].
    { unfold digit_count in Hn. lia. }
    exists (Fin false c' e'), (to_Q false c' e').
    split; [|split; [reflexivity|]].
    + rewrite (parse_size_numeral ip fp "T" H) by now left.
      cbn [Ascii.eqb Bool.eqb]. now rewrite mul_1000, Hfix.
    + rewrite (to_Q_scaled false _ _ c' e' 1000 He Hc).
      now rewrite numeral_to_Q.
  - exists (Fin false (Z.of_N (digits_val (ip ++ frac fp)))
              (- Z.of_nat (String.length (frac fp)))).
    eexists. split; [|split; [reflexivity|]].
    + rewrite (parse_size_numeral ip fp "G" H) by now right. reflexivity.
    + apply numeral_to_Q.
  - reflexivity.
  - eexists. eexists. split; [reflexivity|]. split; reflexivity.
Qed.

Lemma capacity_of_numeral_witness :
  exists d v,
    parse_size "4TB" = Ret (Some ("4TB"%string, d)) /\
    value d = Some v /\ (v == numeral_value "4" None * 1000)%Q.
Proof.
  refine (proj1 (capacity_of_numeral "4" None _) _).
  - split; [discriminate | split; reflexivity].
  - unfold digit_count. simpl. lia.
Defined.

(** C1 as stated fails beyond 28 digits: a capacity of 29 digits in
    terabytes is rounded, and the gigabytes returned are not 1000 times
    the number written. *)
Lemma capacity_counterexample :
  is_numeral "10000000000000000000000000001" None /\
  exists d v,
    parse_size "10000000000000000000000000001TB" =
      Ret (Some ("10000000000000000000000000001TB"%string, d)) /\
    value d = Some v /\
    ~ (v == numeral_value "10000000000000000000000000001" None * 1000)%Q.
Proof.
  split; [split; [discriminate | split; reflexivity]|].
  eexists. eexists. split; [vm_compute; reflexivity|].
  split; [reflexivity|]. vm_compute. discriminate.
Qed.

End CapacityClaims.

(** ** Claims on the normalizers *)

Module NormalizerClaims.

Import Text Re Html Props Examples ExtractFacts.

Lemma float_of_string_cases s :
  (exists f, Scraper.float_of_string s = Ret f) \/
  Scraper.float_of_string s = Raise ValueError.
Proof.
  unfold Scraper.float_of_string.
  destruct (negb (Scraper.underscores_ok None (strip s))); [now right|].
  destruct (Decimal.split_sign (remove_char "_" (strip s))) as [neg body].
  destruct (Scraper.parse_decimal body) as [[m e]|]; [left; now eexists|].
  destruct (String.eqb (lower body) "inf" || String.eqb (lower body) "infinity");
    [left; now eexists|].
  destruct (String.eqb (lower body) "nan"); [left; now eexists | now right].
Qed.

Lemma parse_price_returns price_str :
  exists r, Scraper.parse_price price_str = Ret r.
Proof.
  destruct price_str as [[|c t]|]; try (now eexists).
  unfold Scraper.parse_price.
  destruct (float_of_string_cases
              (strip (sub_empty Scraper.re_after_space
                        (before_first "-"
                           (sub_empty Scraper.re_currency (String c t))))))
    as [[f ->] | ->]; now eexists.
Qed.

Lemma parse_capacity_tb_returns title :
  exists r, Scraper.parse_capacity_tb title = Ret r.
Proof.
  destruct title as [[|c t]|]; try (now eexists).
  unfold Scraper.parse_capacity_tb.
  destruct (search Scraper.re_tb _); [now eexists|].
  destruct (search Scraper.re_gb _); now eexists.
Qed.

Lemma of_string_raises s e :
  Decimal.of_string s = Raise e -> e = InvalidOperation.
Proof.
  unfold Decimal.of_string.
  destruct (Decimal.split_sign _) as [sign body].
  destruct (Decimal.parse_number body) as [[c x]|]; [discriminate|].
  destruct (_ || _); [discriminate|].
  destruct (Decimal.parse_nan body); [discriminate|]. congruence.
Qed.


(** C6, as the code has it.  The two normalizers of
    [hdd_price_scraper.py] never raise: whatever they are given, they
    return a value or [None].  The price conversion of [crawl.py] has no
    such sentinel: a text that [Decimal] rejects is printed and
    [InvalidOperation] is raised again; only a title without a capacity
    is answered by [None]. *)
Theorem normalizer_failures :
  (forall price_str, exists r, Scraper.parse_price price_str = Ret r) /\
  (forall title, exists r, Scraper.parse_capacity_tb title = Ret r) /\
  (forall price_str,
     match Decimal.of_string (remove_char "," price_str) with
     | Ret p => Crawl.price_of_text price_str = ([], Ret p)
     | Raise _ =>
         Crawl.price_of_text price_str =
         ([Crawl.PrintRepr price_str], Raise InvalidOperation)
     end) /\
  (forall title,
     (search Crawl.re_size1 title = None /\ search Crawl.re_size2 title = None)
     <-> Crawl.parse_size title = Ret None).
Proof.
  split; [exact parse_price_returns|].
  split; [exact parse_capacity_tb_returns|]. split.
  - intros s. unfold Crawl.price_of_text.
    destruct (Decimal.of_string (remove_char "," s)) as [p|e] eqn:E;
      [reflexivity|].
    now rewrite (of_string_raises _ _ E).
  - intros title. unfold Crawl.parse_size. split.
    + intros [-> ->]. reflexivity.
    + intros H.
      destruct (search Crawl.re_size1 title) as [m|].
      * exfalso. destruct (Decimal.of_string (group m 1)) as [d|]; [|discriminate].
        cbn [rbind] in H.
        destruct (if String.eqb (group m 2) "T"
                  then Decimal.mul d (Decimal.of_int 1000) else Ret d);
          discriminate.
      * destruct (search Crawl.re_size2 title) as [m|]; [|now split].
        exfalso. destruct (Decimal.of_string (group m 1)) as [d|]; [|discriminate].
        cbn [rbind] in H.
        destruct (if String.eqb (group m 2) "T"
                  then Decimal.mul d (Decimal.of_int 1000) else Ret d);
          discriminate.
Qed.

(** C6 as stated fails in [crawl.py]: a price that is no number raises
    [InvalidOperation] out of [parse_page]. *)
Lemma normalizer_counterexample :
  Crawl.parse_page page_no_price =
  ([Crawl.PrintRepr "N/A"], Raise InvalidOperation).
Proof. reflexivity. Qed.

(** C10. Given [None] or the empty string, [parse_price] and
    [parse_capacity_tb] answer [None] at once: the guard comes before
    anything is asked of the argument, and nothing is raised. *)
Theorem normalizers_guard_empty :
  Scraper.parse_price None = Ret None /\
  Scraper.parse_price (Some EmptyString) = Ret None /\
  Scraper.parse_capacity_tb None = Ret None /\
  Scraper.parse_capacity_tb (Some EmptyString) = Ret None.
Proof. repeat split. Qed.




End NormalizerClaims.

(** ** Claims on deduplication and ranking *)

Module RankClaims.

Import Crawl Props Examples RankFacts.









(** C9. The round is idempotent: run on its own output it returns that
    output unchanged, and logs no duplicate. *)
Theorem dedupe_and_rank_idempotent (listings out : list Item) :
  outcome (dedupe_and_rank listings) = Ret out ->
  dedupe_and_rank out = ([], Ret out).
Proof.
  intros H. rewrite dedupe_and_rank_eq in H. unfold outcome in H; simpl in H.
  apply sort_returns in H. destruct H as [-> Hc].
  set (k := kept listings []) in *.
  pose proof (stable_sort_perm k) as P.
  assert (NoDup (map number (stable_sort k))) as Hnd.
  { eapply Permutation_NoDup; [apply Permutation_map, P | apply kept_NoDup]. }
  destruct (kept_id (stable_sort k) [] Hnd (fun _ _ => eq_refl)) as [Hk Hl].
  rewrite dedupe_and_rank_eq, Hk, Hl. f_equal.
  unfold sort_by_price_per_tb.
  change (existsb _ (stable_sort k)) with (has_nan (stable_sort k)).
  unfold has_nan in *. rewrite <- (existsb_perm _ _ _ P).
  rewrite <- (Permutation_length P), Hc.
  now rewrite (stable_sort_id _ (stable_sort_sorted k)).
Qed.

Lemma dedupe_and_rank_idempotent_witness :
  dedupe_and_rank [item_A; item_B] = ([], Ret [item_A; item_B]).
Proof.
  apply (dedupe_and_rank_idempotent [item_A; item_B; item_A_later]).
  vm_compute. reflexivity.
Defined.

End RankClaims.

(** ** Claims on extraction *)

Module ExtractClaims.

Import Text Html Crawl Props Examples ExtractFacts.

Lemma text_is_true x s : text_is x s = true <-> x = Some s.
Proof.
  destruct x as [t|]; simpl.
  - rewrite String.eqb_eq. split; [now intros -> | now intros [= ->]].
  - split; discriminate.
Qed.

(** C7, as the code has it.  An item container with a title link that
    yields an item number, and whose current-price element is there, is
    out of stock when that element is empty and the promotion reads OUT
    OF STOCK, or when the button message reads Out Of Stock, whatever the
    price; [parse_page] then passes it over: no record, nothing printed,
    no exception, and the other containers are treated as if it were not
    there. *)
Theorem out_of_stock_item_skipped
    (item link cur : element) (next next' : option element) (href : string) :
  find_desc "a" "item-title" item = Some (link, next) ->
  get link "href" = Some href ->
  item_number_of href <> EmptyString ->
  current_price item = Some (cur, next') ->
  (len cur = 0 /\ promo_reads item "OUT OF STOCK") \/
  button_reads item "Out Of Stock" ->
  (hidden_price item = false -> out_of_stock item = ([], Ret true)) /\
  parse_item item = ([], Ret None) /\
  (forall rest items, parse_items (item :: rest) items = parse_items rest items).
Proof.
  intros Hfind Hget Hnum Hcur Hcond.
  assert (out_of_stock item = ([], Ret true)) as Hout.
  { unfold out_of_stock. rewrite Hcur. simpl.
    destruct Hcond as [[Hlen [promo [np [Hp Ht]]]] | [b [nb [Hb Ht]]]].
    - rewrite Hlen, Hp, Ht. reflexivity.
    - rewrite Hb, Ht. simpl. now rewrite orb_true_r. }
  assert (parse_item item = ([], Ret None)) as Hitem.
  { unfold parse_item. rewrite Hfind, Hget.
    apply String.eqb_neq in Hnum. rewrite Hnum. simpl.
    destruct (hidden_price item); [reflexivity|].
    rewrite Hout. reflexivity. }
  split; [now intros _|]. split; [exact Hitem|].
  intros rest items. simpl. rewrite Hitem. simpl.
  now destruct (parse_items rest items).
Qed.

Lemma out_of_stock_item_skipped_witness :
  parse_item sold_out = ([], Ret None).
Proof.
  refine (proj1 (proj2 (out_of_stock_item_skipped sold_out
            (title_link (product_url "E") "Acme 4TB HDD")
            (el "li" "price-current" None [])
            (Some (el "li" "price-current" None []))
            (Some (el "p" "item-promo" (Some "OUT OF STOCK") []))
            (product_url "E") _ _ _ _ _))).
  - reflexivity.
  - reflexivity.
  - discriminate.
  - reflexivity.
  - left. split; [reflexivity|].
    exists (el "p" "item-promo" (Some "OUT OF STOCK") []), None.
    split; reflexivity.
Defined.

(** C7 as stated fails twice.  With no current-price element at all the
    item is not passed over: the assertion of [out_of_stock] fails and
    the exception leaves [parse_page].  And a price on display does not
    keep an item in stock: the button message alone puts it out. *)
Lemma out_of_stock_counterexample :
  (current_price sold_out_bare = None /\
   promo_reads sold_out_bare "OUT OF STOCK" /\
   parse_page (page [sold_out_bare]) =
     ([PrintMarkup sold_out_bare], Raise AssertionError)) /\
  (exists cur next, current_price priced_but_button = Some (cur, next) /\
                    len cur = 2 /\
                    out_of_stock priced_but_button = ([], Ret true)).
Proof.
  split.
  - split; [reflexivity|]. split; [|reflexivity].
    exists (el "p" "item-promo" (Some "OUT OF STOCK") []), None.
    split; reflexivity.
  - exists (price_li "79" ".99"),
      (Some (el "span" "btn btn-message " (Some "Out Of Stock") [])).
    repeat split; reflexivity.
Qed.

(** C8, as the code has it.  Every record of a parsed page carries a
    non-empty number, taken from the link of its container: where the
    link holds [Item=], the number is all that follows its first
    occurrence.  A container whose link yields the empty number is
    printed and fails the assertion, and the exception ends the parsing of
    the whole page. *)
Theorem item_number_checked (root : element) :
  (forall items, outcome (parse_page root) = Ret items ->
     Forall (fun it =>
       number it <> EmptyString /\
       exists c link next href,
         In c (xpath_div_class_contains "item-container" root) /\
         find_desc "a" "item-title" c = Some (link, next) /\
         get link "href" = Some href /\
         number it = item_number_of href /\
         forall i, find "Item=" href = Some i -> number it = drop (i + 5) href)
       items) /\
  (forall c link next href,
     In c (xpath_div_class_contains "item-container" root) ->
     find_desc "a" "item-title" c = Some (link, next) ->
     get link "href" = Some href ->
     item_number_of href = EmptyString ->
     parse_item c = ([PrintMarkup c], Raise AssertionError) /\
     exists e, outcome (parse_page root) = Raise e).
Proof.
  split.
  - intros items H. apply parse_page_appended in H.
    eapply Forall_impl; [|exact H].
    intros it [c [Hin [link next href q Hf Hg Hn Hne Ht Hs Hd Hm]]].
    split; [exact Hne|]. exists c, link, next, href.
    repeat split; try assumption.
    intros i Hi. rewrite Hn. unfold item_number_of. now rewrite Hi.
  - intros c link next href Hin Hf Hg He.
    assert (parse_item c = ([PrintMarkup c], Raise AssertionError)) as Hc.
    { unfold parse_item. rewrite Hf, Hg, He. reflexivity. }
    split; [exact Hc|].
    unfold parse_page. eapply parse_items_raise; [exact Hin|].
    rewrite Hc. reflexivity.
Qed.

Lemma item_number_checked_witness :
  Forall (fun it =>
       number it <> EmptyString /\
       exists c link next href,
         In c (xpath_div_class_contains "item-container" page_ABA) /\
         find_desc "a" "item-title" c = Some (link, next) /\
         get link "href" = Some href /\
         number it = item_number_of href /\
         forall i, find "Item=" href = Some i -> number it = drop (i + 5) href)
    [item_A; item_B; item_A_later].
Proof.
  apply (proj1 (item_number_checked page_ABA)). reflexivity.
Defined.

(** C8 as stated fails.  A link that ends in [Item=] does not make the
    extractor go on with the next item: the page is given up, though its
    second container alone yields a record.  And a link without [Item=]
    raises nothing: the record is emitted with the link less its first
    four characters for a number. *)
Lemma item_number_counterexample :
  (outcome (parse_page page_empty_number) = Raise AssertionError /\
   outcome (parse_page
     (page [container (product_url "B") "Acme 2TB HDD" [price_li "49" ".99"]]))
   = Ret [item_B]) /\
  (exists it, outcome (parse_page page_no_item_param) = Ret [it] /\
              number it = "s://www.newegg.com/p/N82E16822234344").
Proof.
  split.
  - split; vm_compute; reflexivity.
  - eexists. split; [vm_compute; reflexivity | reflexivity].
Qed.

End ExtractClaims.

(** * Further properties *)

Module ReInversion.

Import Text Re NumeralProps TextFacts ReProps.

(** A repetition that lets the match succeed took a run of its class,
    within its bounds, and the rest succeeded after it. *)
Lemma rep_inv {R : Type} (p : ascii -> bool) (g : groups) (k : kont R) (x : R) s :
  forall lo hi prev pos,
    rep p lo hi prev s pos g k = Some x ->
    exists a b,
      s = (a ++ b)%string /\ all_in p a = true /\ lo <= String.length a /\
      match hi with Some h => String.length a <= h | None => True end /\
      k (last_char prev a) b (pos + String.length a) g = Some x.
Proof.
  induction s as [|c t IH]; intros lo hi prev pos H.
  - exists EmptyString, EmptyString. simpl. rewrite Nat.add_0_r.
    destruct hi as [[|h]|], lo; simpl in H; try discriminate;
      repeat split; auto using Nat.le_0_l.
  - assert (stop_case :
      match lo with O => k prev (String c t) pos g | S _ => None end = Some x ->
      exists a b,
        String c t = (a ++ b)%string /\ all_in p a = true /\
        lo <= String.length a /\
        match hi with Some h => String.length a <= h | None => True end /\
        k (last_char prev a) b (pos + String.length a) g = Some x).
    { intros Hs. exists EmptyString, (String c t). simpl. rewrite Nat.add_0_r.
      destruct lo; [|discriminate].
      repeat split; auto. destruct hi; auto using Nat.le_0_l. }
    cbn [rep] in H.
    destruct hi as [[|h]|].
    + now apply stop_case.
    + destruct (p c) eqn:Hc; [|now apply stop_case].
      destruct (rep p (pred lo) (option_map pred (Some (S h))) (Some c) t (S pos) g k)
        as [y|] eqn:E; [|now apply stop_case].
      injection H as ->. apply IH in E.
      destruct E as [a [b [-> [Ha [Hlo [Hhi Hk]]]]]].
      exists (String c a), b. simpl in *. rewrite Hc, Ha.
      repeat split; try lia. now rewrite Nat.add_succ_r.
    + destruct (p c) eqn:Hc; [|now apply stop_case].
      destruct (rep p (pred lo) (option_map pred None) (Some c) t (S pos) g k)
        as [y|] eqn:E; [|now apply stop_case].
      injection H as ->. apply IH in E.
      destruct E as [a [b [-> [Ha [Hlo [_ Hk]]]]]].
      exists (String c a), b. simpl in *. rewrite Hc, Ha.
      repeat split; try lia. now rewrite Nat.add_succ_r.
Qed.

(** A pattern that lets the match succeed consumed a prefix, and handed
    on the groups it was given with its own in front. *)
Lemma run_inv (r : re) : forall {R : Type} prev s pos g (k : kont R) (x : R),
  run r prev s pos g k = Some x ->
  exists prev' a b new,
    s = (a ++ b)%string /\
    Forall (fun e => In (fst e) (ids r)) new /\
    k prev' b (pos + String.length a) (new ++ g) = Some x.
Proof.
  induction r as [|p|r1 IH1 r2 IH2|r1 IH1 r2 IH2|p lo hi|n r IH| |r IH];
    intros R prev s pos g k x H; cbn [run] in H.
  - exists prev, EmptyString, s, []. simpl. rewrite Nat.add_0_r. auto.
  - destruct s as [|c t]; [discriminate|]. destruct (p c); [|discriminate].
    exists (Some c), (String c EmptyString), t, []. simpl.
    rewrite Nat.add_1_r. auto.
  - apply IH1 in H. destruct H as [p1 [a1 [b1 [n1 [-> [F1 H]]]]]].
    apply IH2 in H. destruct H as [p2 [a2 [b2 [n2 [-> [F2 H]]]]]].
    exists p2, (a1 ++ a2)%string, b2, (n2 ++ n1). split; [|split].
    + now rewrite append_assoc.
    + simpl. apply Forall_app. split; (eapply Forall_impl; [|eassumption]);
        intros e He; apply in_or_app; auto.
    + rewrite length_append, Nat.add_assoc, <- List.app_assoc. exact H.
  - destruct (run r1 prev s pos g k) as [y|] eqn:E.
    + injection H as ->. apply IH1 in E.
      destruct E as [p1 [a1 [b1 [n1 [-> [F1 H]]]]]].
      exists p1, a1, b1, n1. repeat split; auto.
      simpl. eapply Forall_impl; [|eassumption].
      intros e He; apply in_or_app; auto.
    + apply IH2 in H. destruct H as [p2 [a2 [b2 [n2 [-> [F2 H]]]]]].
      exists p2, a2, b2, n2. repeat split; auto.
      simpl. eapply Forall_impl; [|eassumption].
      intros e He; apply in_or_app; auto.
  - apply rep_inv in H. destruct H as [a [b [-> [_ [_ [_ H]]]]]].
    exists (last_char prev a), a, b, []. auto.
  - apply IH in H. destruct H as [p1 [a1 [b1 [n1 [-> [F1 H]]]]]].
    exists p1, a1, b1, ((n, substring 0 (pos + String.length a1 - pos) (a1 ++ b1)) :: n1).
    repeat split; auto.
    constructor; [now left|].
    eapply Forall_impl; [|eassumption]. intros e He. now right.
  - destruct (xorb _ _); [|discriminate].
    exists prev, EmptyString, s, []. simpl. rewrite Nat.add_0_r. auto.
  - destruct (run r prev s pos g _); [discriminate|].
    exists prev, EmptyString, s, []. simpl. rewrite Nat.add_0_r. auto.
Qed.

(** A search that finds a match found it at some position. *)
Lemma search_from_inv r s : forall prev pos m,
  search_from r prev s pos = Some m ->
  exists prev' s' pos', match_at r prev' s' pos' = Some m.
Proof.
  induction s as [|c t IH]; intros prev pos m H; cbn [search_from] in H.
  - destruct (match_at r prev EmptyString pos) eqn:E; [|discriminate].
    injection H as ->. eauto.
  - destruct (match_at r prev (String c t) pos) eqn:E.
    + injection H as ->. eauto.
    + eapply IH; eassumption.
Qed.

Lemma lookup_skip n (new g : groups) :
  ~ In n (map fst new) -> lookup n (new ++ g) = lookup n g.
Proof.
  induction new as [|[i t] r IH]; intros H; simpl; [reflexivity|].
  destruct (Nat.eqb_spec n i) as [->|_].
  - exfalso. apply H. now left.
  - apply IH. intros Hin. apply H. now right.
Qed.

End ReInversion.

Module GroupFacts.

Import Text Re NumeralProps TextFacts ReProps ReInversion.

(** The text of a group that is a repetition of a class, when no later
    part of the pattern has a group of its number: a run of the class,
    within the bounds of the repetition. *)
Lemma group_rep_core n p lo hi rest start :
  ~ In n (ids rest) ->
  forall prev s pos g m,
    run (Seq (Grp n (Rep p lo hi)) rest) prev s pos g
      (fun _ _ e g' => Some {| m_start := start; m_end := e; m_groups := g' |})
    = Some m ->
    all_in p (group m n) = true /\ lo <= String.length (group m n) /\
    within hi (String.length (group m n)).
Proof.
  intros Hn prev s pos g m H. cbn [run] in H.
  apply rep_inv in H. destruct H as [a [b [-> [Ha [Hlo [Hhi H]]]]]].
  apply run_inv in H. destruct H as [p' [a' [b' [new [_ [Hnew H]]]]]].
  injection H as <-. unfold group. cbn [m_groups].
  rewrite lookup_skip.
  - cbn [lookup]. rewrite Nat.eqb_refl.
    replace (pos + String.length a - pos) with (String.length a) by lia.
    rewrite substring_prefix. auto.
  - intros Hin. apply in_map_iff in Hin. destruct Hin as [e [<- He]].
    rewrite Forall_forall in Hnew. apply Hn. now apply Hnew.
Qed.

Lemma group_rep n p lo hi rest :
  ~ In n (ids rest) ->
  forall prev s pos m,
    match_at (Seq (Grp n (Rep p lo hi)) rest) prev s pos = Some m ->
    all_in p (group m n) = true /\ lo <= String.length (group m n) /\
    within hi (String.length (group m n)).
Proof. intros Hn prev s pos m H. eapply group_rep_core; eassumption. Qed.

Lemma group_rep_after pre n p lo hi rest :
  ~ In n (ids rest) ->
  forall prev s pos m,
    match_at (Seq pre (Seq (Grp n (Rep p lo hi)) rest)) prev s pos = Some m ->
    all_in p (group m n) = true /\ lo <= String.length (group m n) /\
    within hi (String.length (group m n)).
Proof.
  intros Hn prev s pos m H. unfold match_at in H. cbn [run] in H.
  apply run_inv in H. destruct H as [p' [a [b [new [_ [_ H]]]]]].
  change (run (Seq (Grp n (Rep p lo hi)) rest) p' b (pos + String.length a)
            (new ++ [])
            (fun _ _ e g' => Some {| m_start := pos; m_end := e; m_groups := g' |})
          = Some m) in H.
  eapply group_rep_core; eassumption.
Qed.

Lemma search_inv r s m :
  search r s = Some m -> exists prev s' pos, match_at r prev s' pos = Some m.
Proof. apply search_from_inv. Qed.

End GroupFacts.

Module LitFacts.

Import Text Re NumeralProps TextFacts.

Lemma Lit_fails {R : Type} (l : string) : forall prev s pos g (k : kont R),
  String.prefix l s = false -> run (Lit l) prev s pos g k = None.
Proof.
  induction l as [|c l' IH]; intros prev s pos g k H.
  - destruct s; discriminate.
  - cbn [Lit run]. destruct s as [|d t]; [reflexivity|].
    simpl in H. destruct (ascii_dec c d) as [->|Hn].
    + rewrite Ascii.eqb_refl. now apply IH.
    + apply Ascii.eqb_neq in Hn. now rewrite Hn.
Qed.

Lemma Lit_matches {R : Type} (l : string) : forall prev s pos g (k : kont R),
  run (Lit l) prev (l ++ s) pos g k =
  k (last_char prev l) s (pos + String.length l) g.
Proof.
  induction l as [|c l' IH]; intros prev s pos g k.
  - simpl. now rewrite Nat.add_0_r.
  - cbn [Lit run append]. rewrite Ascii.eqb_refl, IH.
    cbn [String.length last_char]. f_equal. lia.
Qed.




End LitFacts.

Module CapacityFacts.

Import Text Re NumeralProps TextFacts ReProps ReInversion GroupFacts.
Import Decimal DecimalFacts.
Local Open Scope Z_scope.

Lemma dot_not_letter c :
  Crawl.digit_or_dot c = true ->
  lower_char c = c /\ Ascii.eqb c "i" = false /\ Ascii.eqb c "n" = false /\
  Ascii.eqb c "s" = false /\ split_sign (String c EmptyString) = (false, String c EmptyString).
Proof.
  destruct c as [[] [] [] [] [] [] [] []]; vm_compute; try discriminate;
    intros _; repeat split.
Qed.

Lemma split_sign_plain c t :
  Crawl.digit_or_dot c = true -> split_sign (String c t) = (false, String c t).
Proof.
  destruct c as [[] [] [] [] [] [] [] []]; vm_compute; try discriminate;
    reflexivity.
Qed.

(** Digits and points spell a number that is not negative, or
    nothing. *)
Lemma of_string_plain s :
  all_in Crawl.digit_or_dot s = true -> s <> EmptyString ->
  (exists c e, 0 <= c /\ of_string s = Ret (Fin false c e)) \/
  of_string s = Raise InvalidOperation.
Proof.
  intros Hd Hne. unfold of_string.
  rewrite strip_id.
  2:{ eapply all_in_impl; [|exact Hd]. intros c Hc.
      now rewrite (digit_or_dot_not_space c Hc). }
  rewrite remove_char_id.
  2:{ eapply all_in_impl; [|exact Hd]. intros c Hc.
      now rewrite (digit_or_dot_not_underscore c Hc). }
  destruct s as [|c t]; [congruence|].
  simpl in Hd. apply andb_true_iff in Hd. destruct Hd as [Hc _].
  rewrite (split_sign_plain c t Hc).
  destruct (parse_number (String c t)) as [[n e]|] eqn:E.
  - left. exists n, e. split; [|reflexivity].
    unfold parse_number in E.
    destruct (span is_digit (String c t)) as [ip r1].
    destruct (match r1 with String "." r => span is_digit r | _ => (EmptyString, r1) end)
      as [fp r2].
    destruct (String.eqb ip EmptyString && String.eqb fp EmptyString);
      [discriminate|].
    destruct (parse_exponent r2); [|discriminate].
    injection E as <- _. lia.
  - right. destruct (dot_not_letter c Hc) as [Hl [Hi [Hn [Hs _]]]].
    unfold parse_nan. cbn [lower String.eqb String.prefix]. rewrite Hl.
    rewrite Hi. cbn [andb orb].
    destruct (ascii_dec "n" c) as [<-|Hn']; [discriminate|].
    destruct (ascii_dec "s" c) as [<-|Hs']; [discriminate|].
    reflexivity.
Qed.

(** Rounding keeps the sign and a coefficient that is not negative; all
    it can raise is [Overflow]. *)
Lemma fix_shape s c e :
  0 <= c ->
  (exists c' e', 0 <= c' /\ fix_ (Fin s c e) = Ret (Fin s c' e')) \/
  fix_ (Fin s c e) = Raise Overflow.
Proof.
  intros Hc. unfold fix_.
  destruct (c =? 0); [left; eexists; eexists; split; [|reflexivity]; lia|].
  destruct (Etop <? ndigits c + e - prec); [now right|].
  set (exp_min := if ndigits c + e - prec <? Etiny then Etiny
                  else ndigits c + e - prec).
  destruct (e <? exp_min); [|left; eexists; eexists; split; [|reflexivity]; lia].
  destruct (if ndigits c + e - exp_min <? 0 then (1, 1, 0)
            else (c, ndigits c, ndigits c + e - exp_min)) as [[c1 len] digits] eqn:E.
  assert (0 <= c1) as Hc1 by (destruct (_ <? 0); injection E as <- _ _; lia).
  assert (0 <= c1 / 10 ^ (len - digits)) as Hk.
  { destruct (Z.le_gt_cases 0 (len - digits)).
    - apply Z.div_pos; [lia | apply Z.pow_pos_nonneg; lia].
    - rewrite Z.pow_neg_r by lia. rewrite Z.div_0_r. lia. }
  set (coeff := if rounds_up c1 (len - digits)
                then c1 / 10 ^ (len - digits) + 1 else c1 / 10 ^ (len - digits)).
  assert (0 <= coeff) as Hco by (unfold coeff; destruct (rounds_up _ _); lia).
  destruct (prec <? ndigits coeff).
  - destruct (Etop <? exp_min + 1); [now right|].
    left. eexists; eexists; split; [|reflexivity].
    apply Z.div_pos; lia.
  - destruct (Etop <? exp_min); [now right|].
    left. eexists; eexists; split; [|reflexivity]. exact Hco.
Qed.

Lemma size_group_plain r title m :
  r = Crawl.re_size1 \/ r = Crawl.re_size2 ->
  search r title = Some m ->
  all_in Crawl.digit_or_dot (group m 1) = true /\ group m 1 <> EmptyString.
Proof.
  intros Hr H. apply search_inv in H. destruct H as [prev [s [pos H]]].
  assert (all_in Crawl.digit_or_dot (group m 1) = true /\
          (1 <= String.length (group m 1))%nat /\
          within None (String.length (group m 1))) as [Ha [Hl _]].
  { destruct Hr as [-> | ->];
      (eapply group_rep_after; [|exact H]); simpl; intuition discriminate. }
  split; [exact Ha|]. intros E. rewrite E in Hl. simpl in Hl. lia.
Qed.

(** What becomes of the number a pattern has matched: a finite number
    that is not negative, or one of two exceptions. *)
Lemma size_of_match m :
  all_in Crawl.digit_or_dot (group m 1) = true ->
  group m 1 <> EmptyString ->
  match
    (size_gb <- of_string (group m 1) ;;
     size_gb <- (if String.eqb (group m 2) "T"
                 then mul size_gb (of_int 1000) else Ret size_gb) ;;
     Ret (Some ((group m 1 ++ group m 2 ++ "B")%string, size_gb)))%py
  with
  | Ret None => True
  | Ret (Some (_, d)) => exists c e, 0 <= c /\ d = Fin false c e
  | Raise x => x = InvalidOperation \/ x = Overflow
  end.
Proof.
  intros Ha Hne.
  destruct (of_string_plain _ Ha Hne) as [[c [e [Hc ->]]] | ->];
    [|now left]. cbn [rbind].
  destruct (String.eqb (group m 2) "T").
  - rewrite ScaleFacts.mul_1000.
    destruct (fix_shape false (c * 1000) e ltac:(lia))
      as [[c' [e' [Hc' ->]]] | ->]; cbn [rbind]; [eauto | now right].
  - cbn [rbind]. eauto.
Qed.

Lemma parse_size_ret title sz d :
  Crawl.parse_size title = Ret (Some (sz, d)) ->
  exists c e, 0 <= c /\ d = Fin false c e.
Proof.
  unfold Crawl.parse_size. intros H.
  destruct (search Crawl.re_size1 title) as [m|] eqn:E1.
  - destruct (size_group_plain _ title m (or_introl eq_refl) E1) as [Ha Hne].
    pose proof (size_of_match m Ha Hne) as Hm. rewrite H in Hm. exact Hm.
  - destruct (search Crawl.re_size2 title) as [m|] eqn:E2; [|discriminate].
    destruct (size_group_plain _ title m (or_intror eq_refl) E2) as [Ha Hne].
    pose proof (size_of_match m Ha Hne) as Hm. rewrite H in Hm. exact Hm.
Qed.

(** X1. Whatever the title, the capacity read from it is a finite number
    that is not negative, and reading it raises nothing but
    [InvalidOperation] and [Overflow]. *)
Theorem parse_size_shape (title : string) :
  match Crawl.parse_size title with
  | Ret None => True
  | Ret (Some (_, d)) => exists c e, 0 <= c /\ d = Fin false c e
  | Raise x => x = InvalidOperation \/ x = Overflow
  end.
Proof.
  unfold Crawl.parse_size.
  destruct (search Crawl.re_size1 title) as [m|] eqn:E1.
  - destruct (size_group_plain _ title m (or_introl eq_refl) E1).
    now apply size_of_match.
  - destruct (search Crawl.re_size2 title) as [m|] eqn:E2; [|exact I].
    destruct (size_group_plain _ title m (or_intror eq_refl) E2).
    now apply size_of_match.
Qed.

End CapacityFacts.

(** ** A capacity among the words of a title *)

Module TitleFacts.

Import Text Re NumeralProps TextFacts ReFacts LitFacts.
Import Decimal DecimalFacts ScaleFacts Crawl CapacityProps.
Local Open Scope Z_scope.









End TitleFacts.

(** ** A unit without its B *)

Module BareUnitFacts.

Import Text Re NumeralProps TextFacts ReFacts LitFacts.
Import Decimal DecimalFacts ScaleFacts Crawl CapacityProps TitleFacts.












End BareUnitFacts.

Module PriceFacts.

Import Text Decimal DecimalFacts DecimalProps CapacityFacts.
Local Open Scope Z_scope.

Lemma of_string_wf s d : of_string s = Ret d -> wf d.
Proof.
  unfold of_string. destruct (split_sign _) as [sg body].
  destruct (parse_number body) as [[c e]|] eqn:E.
  - intros [= <-]. simpl. unfold parse_number in E.
    destruct (span is_digit body) as [ip r1].
    destruct (match r1 with String "." r => span is_digit r | _ => (EmptyString, r1) end)
      as [fp r2].
    destruct (_ && _); [discriminate|].
    destruct (parse_exponent r2); [|discriminate]. injection E as <- _. lia.
  - destruct (_ || _); [intros [= <-]; exact I|].
    destruct (parse_nan body); [intros [= <-]; exact I | discriminate].
Qed.

Lemma ndigits_small x : x < 10 ^ 28 -> ndigits x <= 28.
Proof.
  intros H. destruct (Z.lt_ge_cases 0 x) as [Hp|Hn].
  - apply ndigits_le; lia.
  - unfold ndigits. cbn [ndigits_fuel].
    destruct (Z.ltb_spec x 10); lia.
Qed.

(** What comes out of the rounding has at most 28 digits. *)
Lemma fix_in_prec s c e d : 0 <= c -> fix_ (Fin s c e) = Ret d -> in_prec d /\ wf d.
Proof.
  intros Hc. destruct (fix_shape s c e Hc) as [[c' [e' [Hc' E]]] | E];
    rewrite E; [|discriminate].
  intros [= <-]. split; [|exact Hc']. simpl. revert E. unfold fix_.
  destruct (Z.eqb_spec c 0) as [->|Hnz].
  { intros [= <- _]. vm_compute. discriminate. }
  destruct (Etop <? ndigits c + e - prec); [discriminate|].
  assert (0 < c) as Hpos by lia.
  destruct (ndigits_spec c Hpos) as [[Hlo Hhi] H1].
  set (exp_min := if ndigits c + e - prec <? Etiny then Etiny
                  else ndigits c + e - prec).
  assert (ndigits c + e - prec <= exp_min) as Hmin.
  { unfold exp_min. destruct (Z.ltb_spec (ndigits c + e - prec) Etiny); lia. }
  destruct (Z.ltb_spec e exp_min) as [Hr|Hk].
  2:{ intros [= <- _]. unfold prec in *. lia. }
  assert (forall c1 len digits coeff,
            0 <= c1 < 10 ^ len -> 0 <= digits <= 28 -> digits <= len ->
            0 <= coeff <= c1 / 10 ^ (len - digits) + 1 ->
            coeff <= 10 ^ 28) as Hbound.
  { intros c1 len digits coeff H1' H2 H3 H4.
    assert (c1 / 10 ^ (len - digits) < 10 ^ digits).
    { apply Z.div_lt_upper_bound; [apply Z.pow_pos_nonneg; lia|].
      rewrite <- Z.pow_add_r by lia.
      replace (len - digits + digits) with len by lia. lia. }
    assert (10 ^ digits <= 10 ^ 28) by (apply Z.pow_le_mono_r; lia). lia. }
  destruct (Z.ltb_spec (ndigits c + e - exp_min) 0) as [Hneg|Hnn].
  - (* nothing is kept *)
    change (1 / 10 ^ (1 - 0)) with 0. change (rounds_up 1 (1 - 0)) with false.
    cbn iota. change (prec <? ndigits 0) with false. cbn iota.
    destruct (Etop <? exp_min); [discriminate|]. intros [= <- _].
    vm_compute. discriminate.
  - set (drop := ndigits c - (ndigits c + e - exp_min)).
    set (coeff := if rounds_up c drop then c / 10 ^ drop + 1 else c / 10 ^ drop).
    assert (0 <= c / 10 ^ drop) as Hk
      by (apply Z.div_pos; [lia | apply Z.pow_pos_nonneg; unfold drop; lia]).
    assert (0 <= coeff <= c / 10 ^ drop + 1) as Hco
      by (unfold coeff; destruct (rounds_up c drop); lia).
    assert (coeff <= 10 ^ 28) as Hle.
    { apply (Hbound c (ndigits c) (ndigits c + e - exp_min) coeff);
        fold drop; unfold prec in *; lia. }
    destruct (Z.ltb_spec prec (ndigits coeff)) as [Hbig|Hfit].
    + destruct (Etop <? exp_min + 1); [discriminate|]. intros [= <- _].
      apply ndigits_small. apply Z.div_lt_upper_bound; [lia|].
      change (10 * 10 ^ 28) with (10 ^ 29). 
      assert (10 ^ 28 < 10 ^ 29) by reflexivity. lia.
    + destruct (Etop <? exp_min); [discriminate|]. intros [= <- _]. exact Hfit.
Qed.

Lemma strip_zeros_nonneg n : forall c e c' e',
  0 <= c -> strip_zeros n c e = (c', e') -> 0 <= c'.
Proof.
  induction n as [|n IH]; intros c e c' e' Hc H; simpl in H.
  - injection H as <- _. exact Hc.
  - destruct (c mod 10 =? 0).
    + eapply IH; [|exact H]. apply Z.div_pos; lia.
    + injection H as <- _. exact Hc.
Qed.

(** A product is within the precision. *)
Lemma mul_in_prec a b d : wf a -> wf b -> mul a b = Ret d -> in_prec d /\ wf d.
Proof.
  intros Ha Hb. unfold mul.
  destruct a as [sa ca ea|sa|sa [|]], b as [sb cb eb|sb|sb [|]];
    cbn [check_nans]; try discriminate; try (intros [= <-]; split; exact I).
  - simpl in Ha, Hb. apply fix_in_prec. apply Z.mul_nonneg_nonneg; lia.
  - destruct (ca =? 0); [discriminate|]. intros [= <-]; split; exact I.
  - destruct (cb =? 0); [discriminate|]. intros [= <-]; split; exact I.
Qed.

(** A quotient is within the precision. *)
Lemma div_in_prec a b d : wf a -> wf b -> div a b = Ret d -> in_prec d /\ wf d.
Proof.
  intros Ha Hb. unfold div.
  destruct a as [sa ca ea|sa|sa [|]], b as [sb cb eb|sb|sb [|]];
    cbn [check_nans]; try discriminate; try (intros [= <-]; split; exact I).
  - simpl in Ha, Hb.
    destruct (Z.eqb_spec cb 0) as [|Hb0]; [destruct (ca =? 0); discriminate|].
    destruct (ca =? 0); [apply fix_in_prec; lia|].
    set (shift := ndigits cb - ndigits ca + prec + 1).
    destruct (if 0 <=? shift then Z.div_eucl (ca * 10 ^ shift) cb
              else Z.div_eucl ca (cb * 10 ^ (- shift))) as [coeff remainder] eqn:E.
    assert (0 <= coeff) as Hco.
    { destruct (Z.leb_spec 0 shift) as [Hs|Hs].
      - change coeff with (fst (coeff, remainder)). rewrite <- E.
        change (fst (Z.div_eucl (ca * 10 ^ shift) cb)) with (ca * 10 ^ shift / cb).
        apply Z.div_pos; [|lia]. apply Z.mul_nonneg_nonneg; [lia|].
        apply Z.pow_nonneg. lia.
      - change coeff with (fst (coeff, remainder)). rewrite <- E.
        change (fst (Z.div_eucl ca (cb * 10 ^ (- shift))))
          with (ca / (cb * 10 ^ (- shift))).
        apply Z.div_pos; [lia|]. apply Z.mul_pos_pos; [lia|].
        apply Z.pow_pos_nonneg; lia. }
    destruct (if remainder =? 0
              then strip_zeros (Z.to_nat (ea - eb - (ea - eb - shift))) coeff
                     (ea - eb - shift)
              else (if coeff mod 5 =? 0 then coeff + 1 else coeff, ea - eb - shift))
      as [c2 e2] eqn:E2.
    apply fix_in_prec.
    destruct (remainder =? 0).
    + eapply strip_zeros_nonneg; eassumption.
    + injection E2 as <- _. destruct (coeff mod 5 =? 0); lia.
  - intros [= <-]. split; [vm_compute; discriminate | simpl; lia].
Qed.

End PriceFacts.

Module RecordFacts.

Import Text Html Crawl Props Examples ExtractFacts.
Import Decimal DecimalProps CapacityFacts PriceFacts.
Local Open Scope Z_scope.

Lemma parse_item_price container it :
  outcome (parse_item container) = Ret (Some it) ->
  exists s, of_string s = Ret (price it).
Proof.
  unfold parse_item. intros H.
  destruct (find_desc "a" "item-title" container) as [[link nx]|];
    [|discriminate].
  destruct (get link "href") as [href|]; [|discriminate].
  step H u1 Hu1. step H u2 Hassert. step H skip Hskip.
  destruct skip; [discriminate|].
  destruct (match find_desc_child "li" "price-current" "strong" container with
            | Some (dollars, _) => text_is (text dollars) "COMING SOON"
            | None => false
            end); [discriminate|].
  destruct (negb _ && _); [discriminate|].
  destruct (match find_desc_child "li" "price-current" "strong" container with
            | Some d => Some d
            | None => find_desc_child "li" "price-current " "strong" container
            end) as [[dollars cents]|].
  2:{ step H u3 Hu3. step H u4 Hu4. discriminate. }
  step H price_str Hstr. step H p Hprice. step H sz Hsz.
  destruct sz as [[sz gb]|]; [|discriminate].
  step H q Hq. step H ppt Hppt.
  unfold ret, outcome in H; simpl in H. injection H as <-. simpl.
  exists (remove_char "," price_str). now apply outcome_price_of_text.
Qed.

Lemma parse_page_items root items :
  outcome (parse_page root) = Ret items ->
  Forall (fun it => exists c,
            In c (xpath_div_class_contains "item-container" root) /\
            outcome (parse_item c) = Ret (Some it)) items.
Proof.
  unfold parse_page. intros H. apply parse_items_ret in H.
  destruct H as [new [-> Hnew]]. exact Hnew.
Qed.

(** X2. No record has a capacity that is negative, infinite or a NaN, and a
    record whose price is a number has a capacity above zero: a title
    that reads zero gigabytes makes the division raise. *)
Theorem record_capacity_positive (root : element) (items : list Item) :
  outcome (parse_page root) = Ret items ->
  Forall (fun it =>
    exists c e, size_gb it = Fin false c e /\ 0 <= c /\
                (is_fin (price it) = true -> 0 < c)) items.
Proof.
  intros H. apply parse_page_items in H.
  eapply Forall_impl; [|exact H]. intros it [c [_ Hit]].
  pose proof (parse_item_appended _ _ Hit)
    as [link next href q Hf Hg Hn Hne Ht [sz Hs] Hd Hm].
  destruct (parse_size_ret _ _ _ Hs) as [n [e [Hn0 E]]]. exists n, e.
  split; [exact E|]. split; [exact Hn0|].
  intros Hfin. rewrite E in Hd. destruct (price it) as [sp cp ep| |];
    try discriminate. unfold div in Hd. cbn [check_nans] in Hd.
  destruct (Z.eqb_spec n 0) as [->|Hnz]; [|lia].
  destruct (cp =? 0); discriminate.
Qed.

Lemma record_capacity_positive_witness :
  Forall (fun it =>
    exists c e, size_gb it = Fin false c e /\ 0 <= c /\
                (is_fin (price it) = true -> 0 < c))
    [item_A; item_B; item_A_later].
Proof.
  apply (record_capacity_positive page_ABA). vm_compute. reflexivity.
Defined.

(** X3. The price per terabyte of a record has at most 28 digits, whatever
    the price and the capacity: it is the result of a rounded division
    and a rounded multiplication. *)
Theorem record_price_per_tb_in_prec (root : element) (items : list Item) :
  outcome (parse_page root) = Ret items ->
  Forall (fun it => in_prec (price_per_tb it) /\ wf (price_per_tb it)) items.
Proof.
  intros H. apply parse_page_items in H.
  eapply Forall_impl; [|exact H]. intros it [c [_ Hit]].
  pose proof (parse_item_appended _ _ Hit)
    as [link next href q Hf Hg Hn Hne Ht [sz Hs] Hd Hm].
  destruct (parse_item_price _ _ Hit) as [s Hp].
  destruct (parse_size_ret _ _ _ Hs) as [n [e [Hn0 E]]].
  assert (wf (size_gb it)) as Hw by (rewrite E; exact Hn0).
  destruct (div_in_prec _ _ _ (of_string_wf _ _ Hp) Hw Hd) as [_ Hq].
  apply (mul_in_prec q (of_int 1000) _ Hq); [simpl; lia | exact Hm].
Qed.

Lemma record_price_per_tb_in_prec_witness :
  Forall (fun it => in_prec (price_per_tb it) /\ wf (price_per_tb it))
    [item_A; item_B; item_A_later].
Proof.
  apply (record_price_per_tb_in_prec page_ABA). vm_compute. reflexivity.
Defined.

End RecordFacts.

Module ScraperFacts.

Import Text Re NumeralProps TextFacts ReFacts ReProps ReInversion GroupFacts.
Import Scraper ScraperProps.







Lemma before_first_no_minus s : all_in not_minus (before_first "-" s) = true.
Proof.
  induction s as [|c t IH]; simpl; [reflexivity|].
  destruct (Ascii.eqb c "-") eqn:E; simpl; [reflexivity|].
  unfold not_minus at 1. now rewrite E, IH.
Qed.

Lemma sub_from_all_in p r s : forall prev pos n,
  all_in p s = true -> all_in p (sub_from r prev s pos n) = true.
Proof.
  induction s as [|c t IH]; intros prev pos n H; [reflexivity|].
  simpl in H. apply andb_true_iff in H. destruct H as [Hc Ht].
  cbn [sub_from]. destruct n as [|n]; [|now apply IH].
  destruct (match_at r prev (String c t) pos) as [m|].
  - destruct (m_end m - pos); [simpl; rewrite Hc|]; now apply IH.
  - simpl. rewrite Hc. now apply IH.
Qed.

Lemma lstrip_all_in p s : all_in p s = true -> all_in p (lstrip s) = true.
Proof.
  induction s as [|c t IH]; intros H; [reflexivity|]. simpl.
  destruct (is_space c); [|exact H].
  simpl in H. apply andb_true_iff in H. now apply IH.
Qed.

Lemma rstrip_all_in p s : all_in p s = true -> all_in p (rstrip s) = true.
Proof.
  induction s as [|c t IH]; intros H; [reflexivity|]. simpl.
  simpl in H. apply andb_true_iff in H. destruct H as [Hc Ht].
  specialize (IH Ht). destruct (rstrip t).
  - destruct (is_space c); simpl; [reflexivity | now rewrite Hc].
  - simpl in *. now rewrite Hc, IH.
Qed.

Lemma strip_all_in p s : all_in p s = true -> all_in p (strip s) = true.
Proof. intros H. now apply rstrip_all_in, lstrip_all_in. Qed.

Lemma remove_char_all_in p x s :
  all_in p s = true -> all_in p (remove_char x s) = true.
Proof.
  induction s as [|c t IH]; intros H; [reflexivity|]. simpl.
  simpl in H. apply andb_true_iff in H. destruct H as [Hc Ht].
  destruct (Ascii.eqb c x); [now apply IH|]. simpl. now rewrite Hc, IH.
Qed.

Lemma split_sign_no_minus s :
  all_in not_minus s = true -> fst (Decimal.split_sign s) = false.
Proof.
  destruct s as [|c t]; [reflexivity|]. simpl all_in. intros H.
  apply andb_true_iff in H. destruct H as [Hc _]. revert Hc.
  destruct c as [[] [] [] [] [] [] [] []]; vm_compute; try discriminate;
    reflexivity.
Qed.

Lemma float_no_minus s f :
  all_in not_minus s = true -> float_of_string s = Ret f -> negative f = false.
Proof.
  intros H. unfold float_of_string.
  destruct (negb (underscores_ok None (strip s))); [discriminate|].
  pose proof (split_sign_no_minus _ (remove_char_all_in _ "_" _ (strip_all_in _ _ H)))
    as Hs.
  destruct (Decimal.split_sign (remove_char "_" (strip s))) as [neg body].
  simpl in Hs. subst neg.
  destruct (parse_decimal body) as [[m e]|]; [now intros [= <-]|].
  destruct (_ || _); [now intros [= <-]|].
  destruct (String.eqb (lower body) "nan"); [now intros [= <-] | discriminate].
Qed.

(** X5. [parse_price] never answers a negative price: the text is cut at its
    first minus sign before it is read, and nothing is raised. *)
Theorem parse_price_not_negative (price_str : option string) :
  match parse_price price_str with
  | Ret (Some f) => negative f = false
  | Ret None => True
  | Raise _ => False
  end.
Proof.
  destruct price_str as [[|c t]|]; try exact I.
  unfold parse_price.
  set (s := strip (sub_empty re_after_space
                     (before_first "-" (sub_empty re_currency (String c t))))).
  assert (all_in not_minus s = true) as Hs.
  { apply strip_all_in. unfold sub_empty at 1. apply sub_from_all_in.
    apply before_first_no_minus. }
  destruct (float_of_string s) as [f|e] eqn:E; cbn [rbind try_except].
  - exact (float_no_minus s f Hs E).
  - unfold float_of_string in E.
    destruct (negb _); [injection E as <-; exact I|].
    destruct (Decimal.split_sign _) as [neg body].
    destruct (parse_decimal body) as [[m x]|]; [discriminate|].
    destruct (_ || _); [discriminate|].
    destruct (String.eqb (lower body) "nan"); [discriminate|].
    injection E as <-. exact I.
Qed.

(** X6. The terabytes [parse_capacity_tb] reads are at most 999 and the
    gigabytes at most 99999, for the patterns take three and five digits
    at most; and it never raises. *)
Theorem parse_capacity_tb_bounds (title : option string) :
  match parse_capacity_tb title with
  | Ret (Some (TB n)) => (n <= 999)%N
  | Ret (Some (GB_rounded gb)) => (gb <= 99999)%N
  | Ret None => True
  | Raise _ => False
  end.
Proof.
  assert (forall r hi m,
            (r = re_tb /\ hi = 3) \/ (r = re_gb /\ hi = 5) ->
            search r (lower (or_title title)) = Some m ->
            (digits_val (group m 1) < 10 ^ N.of_nat hi)%N) as Hb.
  { intros r hi m Hr H. apply search_inv in H. destruct H as [prev [s [pos H]]].
    assert (all_in is_digit (group m 1) = true /\
            String.length (group m 1) <= hi) as [Ha Hl].
    { destruct Hr as [[-> ->] | [-> ->]];
        (eapply group_rep in H; [|simpl; intuition discriminate]);
        simpl in H; intuition. }
    apply digits_val_bound in Ha. eapply N.lt_le_trans; [exact Ha|].
    apply N.pow_le_mono_r; lia. }
  destruct title as [[|c t]|]; try exact I.
  unfold parse_capacity_tb. simpl or_title in Hb.
  destruct (search re_tb (lower (String c t))) as [m|] eqn:E1.
  - specialize (Hb re_tb 3 m (or_introl (conj eq_refl eq_refl)) E1).
    change (10 ^ N.of_nat 3)%N with 1000%N in Hb. lia.
  - destruct (search re_gb (lower (String c t))) as [m|] eqn:E2; [|exact I].
    specialize (Hb re_gb 5 m (or_intror (conj eq_refl eq_refl)) E2).
    change (10 ^ N.of_nat 5)%N with 100000%N in Hb. lia.
Qed.

End ScraperFacts.

(** ** Price ranges *)

Module RangeFacts.

Import Text Re NumeralProps TextFacts ReFacts LitFacts.
Import Scraper ScraperProps ScraperFacts.

Lemma prefix_before_minus l : forall s1 s2,
  all_in not_minus l = true ->
  String.prefix l (s1 ++ String "-" s2) = String.prefix l s1.
Proof.
  induction l as [|c l' IH]; intros s1 s2 H.
  - now destruct s1.
  - cbn [all_in] in H. apply andb_true_iff in H. destruct H as [Hc Hl].
    destruct s1 as [|d t]; cbn [append String.prefix].
    + destruct (ascii_dec c "-") as [->|_]; [discriminate | reflexivity].
    + destruct (ascii_dec c d); [now apply IH | reflexivity].
Qed.

Lemma prefix_split l : forall s,
  String.prefix l s = true -> exists rest, s = (l ++ rest)%string.
Proof.
  induction l as [|c l' IH]; intros s H.
  - now exists s.
  - destruct s as [|d t]; [discriminate|]. cbn [String.prefix] in H.
    destruct (ascii_dec c d) as [->|_]; [|discriminate].
    destruct (IH t H) as [rest ->]. now exists rest.
Qed.

(** The match of an alternative of literals: the first that begins the
    text. *)
Lemma match_any_lit ls prev s pos :
  match_at (any_of (map Lit ls)) prev s pos =
  option_map
    (fun l => {| m_start := pos; m_end := pos + String.length l;
                 m_groups := [] |})
    (List.find (fun l => String.prefix l s) ls).
Proof.
  assert (forall l, match_at (Lit l) prev s pos =
                    if String.prefix l s
                    then Some {| m_start := pos; m_end := pos + String.length l;
                                 m_groups := [] |}
                    else None) as One.
  { intros l. unfold match_at. destruct (String.prefix l s) eqn:E.
    - destruct (prefix_split l s E) as [rest ->]. now rewrite Lit_matches.
    - now apply Lit_fails. }
  induction ls as [|l rest IH]; [now destruct s|].
  destruct rest as [|l2 rest'].
  - cbn [map any_of List.find]. rewrite One. now destruct (String.prefix l s).
  - change (any_of (map Lit (l :: l2 :: rest')))
      with (Alt (Lit l) (any_of (map Lit (l2 :: rest')))).
    cbn [List.find]. specialize (One l).
    unfold match_at in *. cbn [run]. rewrite One.
    destruct (String.prefix l s); [reflexivity | exact IH].
Qed.

Lemma prefix_length l : forall s,
  String.prefix l s = true -> String.length l <= String.length s.
Proof.
  intros s H. destruct (prefix_split l s H) as [rest ->].
  rewrite length_append. lia.
Qed.

Lemma find_before_minus ls s1 s2 :
  Forall (fun l => all_in not_minus l = true) ls ->
  List.find (fun l => String.prefix l (s1 ++ String "-" s2)) ls =
  List.find (fun l => String.prefix l s1) ls.
Proof.
  induction 1 as [|l rest Hl _ IH]; [reflexivity|].
  cbn [List.find]. now rewrite (prefix_before_minus l s1 s2 Hl), IH.
Qed.

(** Cutting out literals without a minus sign goes on either side of a
    minus sign as it goes on the side alone. *)
Lemma sub_before_minus ls b :
  Forall (fun l => all_in not_minus l = true) ls ->
  Forall (fun l => l <> EmptyString) ls ->
  forall a prev pos n,
    n <= String.length a ->
    sub_from (any_of (map Lit ls)) prev (a ++ String "-" b) pos n =
    (sub_from (any_of (map Lit ls)) prev a pos n
     ++ String "-"
          (sub_from (any_of (map Lit ls)) (Some "-"%char) b
             (S (pos + String.length a)) 0))%string.
Proof.
  intros Hm Hne.
  induction a as [|c t IH]; intros prev pos n Hn.
  - cbn [String.length] in Hn. assert (n = 0) as -> by lia.
    cbn [append sub_from]. rewrite match_any_lit.
    change (String "-" b) with ((EmptyString ++ String "-" b)%string) at 1.
    rewrite (find_before_minus ls EmptyString b Hm).
    assert (List.find (fun l => String.prefix l EmptyString) ls = None) as ->.
    { clear Hm. induction Hne as [|l rest Hl _ IH']; [reflexivity|].
      cbn [List.find]. destruct l; [congruence | exact IH']. }
    cbn [option_map]. now rewrite Nat.add_0_r.
  - cbn [String.length] in Hn.
    change ((String c t ++ String "-" b)%string)
      with (String c (t ++ String "-" b)).
    cbn [sub_from]. destruct n as [|n].
    + change (String c (t ++ String "-" b))
        with ((String c t ++ String "-" b)%string).
      rewrite !match_any_lit, (find_before_minus ls (String c t) b Hm).
      destruct (List.find (fun l => String.prefix l (String c t)) ls)
        as [l|] eqn:E; cbn [option_map m_end].
      * apply find_some in E. destruct E as [_ E].
        apply prefix_length in E. cbn [String.length] in E.
        replace (pos + String.length l - pos) with (String.length l) by lia.
        destruct (String.length l) as [|k].
        -- cbn [append]. rewrite IH by lia. cbn [String.length].
           now rewrite Nat.add_succ_r.
        -- rewrite IH by lia. cbn [String.length].
           now rewrite Nat.add_succ_r.
      * cbn [append]. rewrite IH by lia. cbn [String.length].
        now rewrite Nat.add_succ_r.
    + rewrite IH by lia. cbn [String.length]. now rewrite Nat.add_succ_r.
Qed.

Lemma before_first_minus x y :
  all_in not_minus x = true ->
  before_first "-" (x ++ String "-" y) = x /\ before_first "-" x = x.
Proof.
  induction x as [|c t IH]; intros H; [split; reflexivity|].
  cbn [all_in] in H. apply andb_true_iff in H. destruct H as [Hc Ht].
  unfold not_minus in Hc. apply negb_true_iff in Hc.
  cbn [append before_first]. rewrite Hc.
  destruct (IH Ht) as [-> ->]. split; reflexivity.
Qed.

(** X20. Of a price range only the lower bound is read: what follows the
    first minus sign has no part in the answer. *)
Theorem price_range_lower_bound (a b : string) :
  all_in not_minus a = true ->
  parse_price (Some (a ++ String "-" b)%string) = parse_price (Some a).
Proof.
  intros Ha.
  assert (before_first "-" (sub_empty re_currency (a ++ String "-" b)) =
          before_first "-" (sub_empty re_currency a)) as E.
  { unfold sub_empty.
    change re_currency with (any_of (map Lit currency_marks)).
    rewrite (sub_before_minus currency_marks b); [| | |lia].
    - pose proof (sub_from_all_in not_minus
                    (any_of (map Lit currency_marks)) a None 0 0 Ha) as Hs.
      destruct (before_first_minus _
                  (sub_from (any_of (map Lit currency_marks))
                     (Some "-"%char) b (S (0 + String.length a)) 0) Hs)
        as [-> ->].
      reflexivity.
    - repeat constructor.
    - repeat constructor; discriminate. }
  destruct a as [|c t].
  - cbn [append] in *. unfold parse_price. rewrite E. reflexivity.
  - cbn [append] in *. unfold parse_price. now rewrite E.
Qed.

Lemma price_range_lower_bound_witness :
  parse_price (Some ("$1,099.99" ++ String "-" "$1,299.99")%string) =
  parse_price (Some "$1,099.99").
Proof.
  apply (price_range_lower_bound "$1,099.99" "$1,299.99"). reflexivity.
Defined.

End RangeFacts.

(** ** Terabytes in a title *)

Module TerabyteFacts.

Import Text Re NumeralProps TextFacts ReFacts ReProps LitFacts.
Import Scraper ScraperProps.





















End TerabyteFacts.

(** ** Ordinary prices *)

Module PriceTextFacts.

Import Text Re NumeralProps TextFacts ReFacts LitFacts DecimalFacts.
Import Scraper ScraperProps.

Lemma sub_after_space_none s : forall prev pos,
  all_in not_space s = true -> sub_from re_after_space prev s pos 0 = s.
Proof.
  induction s as [|c t IH]; intros prev pos H; [reflexivity|].
  cbn [all_in] in H. apply andb_true_iff in H. destruct H as [Hc Ht].
  unfold not_space in Hc. apply negb_true_iff in Hc.
  cbn [sub_from]. unfold match_at, re_after_space. cbn [run].
  now rewrite Hc, IH.
Qed.

Lemma dot_plain c :
  Crawl.digit_or_dot c = true ->
  not_space c = true /\ not_minus c = true /\ Ascii.eqb c "_" = false.
Proof.
  destruct c as [[] [] [] [] [] [] [] []]; vm_compute; try discriminate;
    intros _; repeat split.
Qed.

Lemma underscores_ok_none s : forall prev,
  all_in (fun c => negb (Ascii.eqb c "_")) s = true ->
  underscores_ok prev s = true.
Proof.
  induction s as [|c t IH]; intros prev H; [reflexivity|].
  cbn [all_in] in H. apply andb_true_iff in H. destruct H as [Hc Ht].
  apply negb_true_iff in Hc. cbn [underscores_ok]. rewrite Hc. now apply IH.
Qed.

Lemma parse_decimal_numeral ip fp :
  is_numeral ip fp ->
  parse_decimal (numeral_text ip fp) =
  Some (digits_val (ip ++ frac fp), (- Z.of_nat (String.length (frac fp)))%Z).
Proof.
  intros [Hne [Hi Hf]]. unfold parse_decimal.
  destruct fp as [f|]; cbn [numeral_text frac] in *.
  - rewrite (span_all is_digit ip ("." ++ f) Hi) by reflexivity.
    cbn [append]. rewrite (span_all_end is_digit f Hf).
    destruct ip as [|c t]; [congruence|]. cbn [String.eqb andb].
    cbn [Decimal.parse_exponent]. reflexivity.
  - rewrite (span_all_end is_digit ip Hi).
    destruct ip as [|c t]; [congruence|]. cbn [String.eqb andb].
    cbn [Decimal.parse_exponent String.length Z.of_nat].
    now rewrite app_empty_r.
Qed.

Lemma float_of_numeral ip fp :
  is_numeral ip fp ->
  float_of_string (numeral_text ip fp) =
  Ret (FNum false (digits_val (ip ++ frac fp))
         (- Z.of_nat (String.length (frac fp)))%Z).
Proof.
  intros H. pose proof (numeral_digit_or_dot ip fp H) as Hd.
  unfold float_of_string.
  rewrite strip_id.
  2:{ eapply all_in_impl; [|exact Hd]. intros c Hc.
      apply (dot_plain c Hc). }
  rewrite underscores_ok_none.
  2:{ eapply all_in_impl; [|exact Hd]. intros c Hc.
      now rewrite (proj2 (proj2 (dot_plain c Hc))). }
  cbn [negb]. rewrite remove_char_id.
  2:{ eapply all_in_impl; [|exact Hd]. intros c Hc.
      now rewrite (proj2 (proj2 (dot_plain c Hc))). }
  destruct (numeral_starts ip fp H) as [c [t [E Hc]]].
  rewrite E, (digit_split_sign c t Hc), <- E.
  now rewrite (parse_decimal_numeral ip fp H).
Qed.

(** X23. A price that is a numeral once the currency marks and the commas
    are taken out, such as [$1,234.56], is read as the number the
    numeral denotes. *)
Theorem parse_price_of_numeral (price_str ip : string) (fp : option string) :
  is_numeral ip fp ->
  sub_empty re_currency price_str = numeral_text ip fp ->
  parse_price (Some price_str) =
  Ret (Some (FNum false (digits_val (ip ++ frac fp))
               (- Z.of_nat (String.length (frac fp)))%Z)).
Proof.
  intros H Hsub. pose proof (numeral_digit_or_dot ip fp H) as Hd.
  destruct price_str as [|c0 t0].
  - destruct (numeral_starts ip fp H) as [c [t [E _]]].
    rewrite E in Hsub. discriminate.
  - unfold parse_price. rewrite Hsub.
    rewrite (proj2 (RangeFacts.before_first_minus (numeral_text ip fp)
                      EmptyString
                      (all_in_impl _ _ _
                         (fun c Hc => proj1 (proj2 (dot_plain c Hc))) Hd))).
    unfold sub_empty at 1.
    rewrite (sub_after_space_none _ None 0
               (all_in_impl _ _ _ (fun c Hc => proj1 (dot_plain c Hc)) Hd)).
    rewrite strip_id.
    2:{ eapply all_in_impl; [|exact Hd]. intros c Hc.
        apply (dot_plain c Hc). }
    now rewrite (float_of_numeral ip fp H).
Qed.

Lemma parse_price_of_numeral_witness :
  parse_price (Some "$1,234.56") =
  Ret (Some (FNum false (digits_val ("1234" ++ frac (Some "56")))
               (- Z.of_nat (String.length (frac (Some "56"))))%Z)).
Proof.
  apply (parse_price_of_numeral "$1,234.56" "1234" (Some "56")).
  - split; [discriminate | split; reflexivity].
  - reflexivity.
Defined.

End PriceTextFacts.

Module FilesFacts.

Import Text NumeralProps TextFacts Files FilesProps.

Lemma below_in n p : (p < N.of_nat n)%N -> In p (below n).
Proof.
  intros H. unfold below. apply in_map_iff. exists (N.to_nat p).
  split; [apply N2Nat.id|]. apply in_seq. lia.
Qed.

Lemma rfind_append sub a b i :
  rfind sub b = Some i -> rfind sub (a ++ b) = Some (String.length a + i).
Proof.
  intros H. induction a as [|c t IH]; simpl; [exact H|]. now rewrite IH.
Qed.

Lemma take_append a b : take (String.length a) (a ++ b) = a.
Proof. induction a as [|c t IH]; simpl; [now destruct b | now rewrite IH]. Qed.

Lemma drop_plus a b n : drop (String.length a + n) (a ++ b) = drop n b.
Proof. induction a as [|c t IH]; simpl; [reflexivity | exact IH]. Qed.

Lemma file_entry_suffix expected name page :
  reads_back expected page = true ->
  file_entry (page_basename name page) = Ret (name, expected page).
Proof.
  unfold reads_back, file_entry, page_basename. fold (page_suffix page).
  destruct (rfind "_page" (page_suffix page)) as [[|i]|] eqn:E; try discriminate.
  rewrite (rfind_append _ name _ _ E), Nat.add_0_r, take_append.
  unfold slice. rewrite drop_plus.
  replace (String.length name + 7 - (String.length name + 5)) with (7 - 5) by lia.
  destruct (int_of_string _) as [n|]; [|discriminate].
  intros H. apply Z.eqb_eq in H. now subst n.
Qed.

Lemma reads_back_below page :
  (page < 100)%N -> reads_back Z.of_N page = true.
Proof.
  intros H.
  assert (forallb (reads_back Z.of_N) (below 100) = true) as A
    by (vm_compute; reflexivity).
  rewrite forallb_forall in A. apply A. now apply below_in.
Qed.

(** X7. A page below 100 is read back from the name it was saved under: the
    category, whatever its name, and the number. *)
Theorem page_name_round_trip (name : string) (page : N) :
  (page < 100)%N ->
  file_entry (page_basename name page) = Ret (name, Z.of_N page).
Proof.
  intros H. apply file_entry_suffix. now apply reads_back_below.
Qed.

Lemma page_name_round_trip_witness :
  file_entry (page_basename "ssd_sata" 7) = Ret ("ssd_sata", 7%Z).
Proof. apply (page_name_round_trip "ssd_sata" 7). reflexivity. Defined.

(** X8. From page 100 on the name has three digits and only two are read
    back: page 100 to 999 comes back as its tenth. *)
Theorem page_name_three_digits (name : string) (page : N) :
  (100 <= page < 1000)%N ->
  file_entry (page_basename name page) = Ret (name, Z.of_N (page / 10)).
Proof.
  intros H. apply (file_entry_suffix (fun p => Z.of_N (p / 10))).
  assert (forallb (fun p => (p <? 100)%N || reads_back (fun p => Z.of_N (p / 10)) p)
            (below 1000) = true) as A by (vm_compute; reflexivity).
  rewrite forallb_forall in A. specialize (A page (below_in 1000 page ltac:(lia))).
  apply orb_true_iff in A. destruct A as [A|A]; [|exact A].
  apply N.ltb_lt in A. lia.
Qed.

Lemma page_name_three_digits_witness :
  file_entry (page_basename "ssd_sata" 123) = Ret ("ssd_sata", 12%Z).
Proof. apply (page_name_three_digits "ssd_sata" 123). lia. Defined.

End FilesFacts.

Module FileMapFacts.

Import Text NumeralProps TextFacts Files FilesProps FilesFacts.

Lemma insert_name_perm f l : Permutation (f :: l) (insert_name f l).
Proof.
  induction l as [|g r IH]; simpl; [apply Permutation_refl|].
  destruct (String.leb f g); [apply Permutation_refl|].
  eapply perm_trans; [apply perm_swap | now apply perm_skip].
Qed.

Lemma sorted_names_perm l : Permutation l (sorted_names l).
Proof.
  induction l as [|f r IH]; simpl; [constructor|].
  eapply perm_trans; [apply perm_skip, IH | apply insert_name_perm].
Qed.

Lemma leb_false_flip a b : String.leb a b = false -> String.leb b a = true.
Proof. intros H. destruct (String.leb_total a b); congruence. Qed.

Lemma insert_name_sorted f l : Sorted name_le l -> Sorted name_le (insert_name f l).
Proof.
  induction l as [|g r IH]; intros Hs; simpl; [repeat constructor|].
  destruct (String.leb f g) eqn:E.
  - constructor; [exact Hs | constructor; exact E].
  - apply Sorted_inv in Hs. destruct Hs as [Hr Hhd].
    constructor; [now apply IH|].
    destruct r as [|h r']; simpl.
    + constructor. now apply leb_false_flip.
    + destruct (String.leb f h).
      * constructor. now apply leb_false_flip.
      * constructor. now inversion Hhd.
Qed.

Lemma sorted_names_sorted l : Sorted name_le (sorted_names l).
Proof.
  induction l as [|f r IH]; simpl; [constructor | now apply insert_name_sorted].
Qed.

Lemma compare_prefix name a b :
  String.compare (name ++ a) (name ++ b) = String.compare a b.
Proof.
  induction name as [|c t IH]; simpl; [reflexivity|].
  assert (Ascii.compare c c = Eq) as ->; [|exact IH].
  unfold Ascii.compare. apply N.compare_refl.
Qed.

Lemma leb_prefix name a b :
  String.leb (name ++ a) (name ++ b) = String.leb a b.
Proof. unfold String.leb. now rewrite compare_prefix. Qed.

Lemma suffix_order p q :
  (p < 100)%N -> (q < 100)%N ->
  String.leb (page_suffix p) (page_suffix q) = true -> (p <= q)%N.
Proof.
  intros Hp Hq H.
  assert (forallb (fun p => forallb (fun q =>
            implb (String.leb (page_suffix p) (page_suffix q)) (p <=? q)%N)
            (below 100)) (below 100) = true) as A by (vm_compute; reflexivity).
  rewrite forallb_forall in A. specialize (A p (below_in 100 p Hp)).
  rewrite forallb_forall in A. specialize (A q (below_in 100 q Hq)).
  rewrite H in A. simpl in A. now apply N.leb_le.
Qed.

Lemma fill_map_category name ps : forall acc,
  Forall (fun p => (p < 100)%N) ps ->
  fill_map (map (page_basename name) ps) [(name, acc)] =
  Ret [(name, acc ++ map (fun p => (Z.of_N p, page_basename name p)) ps)].
Proof.
  induction ps as [|p r IH]; intros acc H; simpl.
  - now rewrite app_nil_r.
  - inversion H as [|? ? Hp Hr]; subst.
    rewrite (file_entry_suffix Z.of_N name p (reads_back_below p Hp)). cbn [rbind fst snd append_to].
    rewrite String.eqb_refl, IH by exact Hr.
    now rewrite <- List.app_assoc.
Qed.

(** X9. In whatever order the directory lists the pages of a category, all
    below 100, the file map holds them under the category in ascending
    order of page. *)
Theorem build_file_map_ascending (name : string) (pages : list N) :
  pages <> [] -> Forall (fun p => (p < 100)%N) pages ->
  exists ps,
    Permutation pages ps /\ Sorted N.le ps /\
    build_file_map (map (page_basename name) pages) =
    Ret [(name, map (fun p => (Z.of_N p, page_basename name p)) ps)].
Proof.
  intros Hne Hlt. unfold build_file_map.
  pose proof (sorted_names_perm (map (page_basename name) pages)) as P.
  pose proof (sorted_names_sorted (map (page_basename name) pages)) as S.
  destruct (Permutation_map_inv _ _ (Permutation_sym P)) as [ps [E Pp]].
  rewrite E in *. exists ps.
  assert (Forall (fun p => (p < 100)%N) ps) as Hps.
  { rewrite Forall_forall in *. intros p Hp. apply Hlt.
    apply (Permutation_in _ (Permutation_sym Pp)). exact Hp. }
  split; [exact Pp|]. split.
  - clear E P Pp Hne Hlt. induction ps as [|p r IH]; [constructor|].
    simpl in S. apply Sorted_inv in S. destruct S as [Sr Hhd].
    inversion Hps as [|? ? Hp Hr]; subst.
    constructor; [now apply IH|].
    destruct r as [|q r']; constructor.
    inversion Hhd as [|? ? Hpq]; subst. unfold name_le in Hpq.
    unfold page_basename in Hpq. fold (page_suffix p) (page_suffix q) in Hpq.
    rewrite leb_prefix in Hpq.
    inversion Hr; subst. now apply suffix_order.
  - destruct ps as [|p r].
    + apply Permutation_sym, Permutation_nil in Pp. congruence.
    + inversion Hps as [|? ? Hp Hr]; subst. cbn [map fill_map].
      rewrite (file_entry_suffix Z.of_N name p (reads_back_below p Hp)). cbn [rbind fst snd append_to].
      now rewrite (fill_map_category name r _ Hr).
Qed.

Lemma build_file_map_ascending_witness :
  exists ps,
    Permutation [12; 2; 1]%N ps /\ Sorted N.le ps /\
    build_file_map (map (page_basename "ssd_sata") [12; 2; 1]%N) =
    Ret [("ssd_sata", map (fun p => (Z.of_N p, page_basename "ssd_sata" p)) ps)].
Proof.
  apply (build_file_map_ascending "ssd_sata" [12; 2; 1]%N).
  - discriminate.
  - repeat constructor.
Defined.

Lemma file_entry_raises f e : file_entry f = Raise e -> e = ValueError.
Proof.
  unfold file_entry.
  destruct (match rfind "_page" f with
            | Some pos => (take pos f, slice (pos + 5) (pos + 7) f)
            | None => (take (String.length f - 1) f, slice 4 6 f)
            end) as [name digits].
  unfold int_of_string.
  destruct (Decimal.split_sign (strip digits)) as [neg body].
  destruct (digits_underscored false body); simpl; congruence.
Qed.

Lemma fill_map_raises names f : forall files,
  In f names -> file_entry f = Raise ValueError ->
  fill_map names files = Raise ValueError.
Proof.
  induction names as [|g rest IH]; intros files Hin Hf; [contradiction|].
  simpl. destruct (file_entry g) as [e|x] eqn:Hg.
  - destruct Hin as [-> | Hin]; [congruence|].
    simpl. now apply IH.
  - simpl. now rewrite (file_entry_raises g x Hg).
Qed.

(** X10. One file in the directory whose name does not give a page number,
    and [build_file_map] raises [ValueError]: no map is built, whatever
    else the directory holds. *)
Theorem build_file_map_stray_file (listing : list string) (f : string) :
  In f listing -> file_entry f = Raise ValueError ->
  build_file_map listing = Raise ValueError.
Proof.
  intros Hin Hf. unfold build_file_map.
  apply (fill_map_raises _ f); [|exact Hf].
  apply (Permutation_in _ (sorted_names_perm listing)). exact Hin.
Qed.

Lemma build_file_map_stray_file_witness :
  build_file_map ["ssd_sata_page01.html"; ".DS_Store"; "hdd_page01.html"] =
  Raise ValueError.
Proof.
  apply (build_file_map_stray_file _ ".DS_Store").
  - simpl. auto.
  - vm_compute. reflexivity.
Defined.

End FileMapFacts.

(** ** The categories of [group_items] *)

Module CategoryFacts.

Import Html Crawl Props Examples RankFacts ExtractFacts CategoryProps.

Lemma kept_app a : forall b seen,
  kept (a ++ b) seen = kept a seen ++ kept b (seen_after a seen).
Proof.
  induction a as [|i r IH]; intros b seen; simpl; [reflexivity|].
  destruct (mem (number i) seen); [apply IH|].
  simpl. now rewrite IH.
Qed.

Lemma seen_after_app a : forall b seen,
  seen_after (a ++ b) seen = seen_after b (seen_after a seen).
Proof.
  induction a as [|i r IH]; intros b seen; simpl; [reflexivity|].
  destruct (mem (number i) seen); apply IH.
Qed.

Lemma outcome_scan_items parsed seen items :
  outcome (scan_items parsed seen items) =
  Ret (seen_after parsed seen, items ++ kept parsed seen).
Proof. now rewrite scan_items_eq. Qed.

(** The loop over pages that all parse is the loop over their items. *)
Lemma scan_pages_parsed pages : forall parsed seen items,
  Forall2 parses pages parsed ->
  outcome (scan_pages pages seen items) =
  Ret (seen_after (concat parsed) seen, items ++ kept (concat parsed) seen).
Proof.
  induction pages as [|p rest IH]; intros parsed seen items H;
    inversion H as [|? its ? prest Hp Hrest]; subst; simpl.
  - unfold ret, outcome. simpl. now rewrite app_nil_r.
  - rewrite (outcome_bind_step _ _ its Hp).
    rewrite (outcome_bind_step _ _ _ (outcome_scan_items its seen items)).
    cbn [fst snd]. rewrite (IH prest _ _ Hrest).
    now rewrite kept_app, seen_after_app, app_assoc.
Qed.

(** A loop over pages that returns has parsed them all. *)
Lemma scan_pages_ret pages : forall seen items st,
  outcome (scan_pages pages seen items) = Ret st ->
  exists parsed, Forall2 parses pages parsed.
Proof.
  induction pages as [|p rest IH]; intros seen items st H; simpl in H.
  - exists []. constructor.
  - step H its Hp. step H st' Hst'.
    apply IH in H. destruct H as [prest Hrest].
    exists (its :: prest). now constructor.
Qed.

(** The loop stops at the first page that raises. *)
Lemma scan_pages_fails pages p : forall seen items,
  In p pages -> fails p ->
  exists e, outcome (scan_pages pages seen items) = Raise e.
Proof.
  induction pages as [|q rest IH]; intros seen items Hin Hp; [contradiction|].
  simpl. destruct (outcome (parse_page q)) as [its|e] eqn:Hq.
  - rewrite (outcome_bind_step _ _ its Hq).
    rewrite (outcome_bind_step _ _ _ (outcome_scan_items its seen items)).
    destruct Hin as [-> | Hin].
    + destruct Hp as [e He]. unfold parses in *. congruence.
    + now apply IH.
  - exists e. now apply outcome_bind_raise.
Qed.

(** X11. The category is the round of [dedupe_and_rank] over the items of
    its pages, taken in the order of the pages: an item number seen on an
    earlier page is passed over on a later one. *)
Theorem group_category_of_pages (pages : list element)
    (parsed : list (list Item)) :
  Forall2 parses pages parsed ->
  outcome (group_category pages) = outcome (dedupe_and_rank (concat parsed)).
Proof.
  intros H. unfold group_category, dedupe_and_rank.
  rewrite (outcome_bind_step _ _ _ (scan_pages_parsed pages parsed [] [] H)).
  now rewrite (outcome_bind_step _ _ _ (outcome_scan_items (concat parsed) [] [])).
Qed.

Lemma group_category_of_pages_witness :
  outcome (group_category [page_ABA; page_ABA]) =
  outcome (dedupe_and_rank
             (concat [[item_A; item_B; item_A_later];
                      [item_A; item_B; item_A_later]])).
Proof.
  apply (group_category_of_pages [page_ABA; page_ABA]).
  constructor; [vm_compute; reflexivity|].
  constructor; [vm_compute; reflexivity|].
  constructor.
Defined.

(** X12. A category that is built lists no item number twice, also when the
    number comes up on two pages, and lists only items that its pages
    hold. *)
Theorem group_category_no_repeats (pages : list element) (out : list Item) :
  outcome (group_category pages) = Ret out ->
  NoDup (map number out) /\
  forall it, In it out ->
    exists page items, In page pages /\ parses page items /\ In it items.
Proof.
  intros H. unfold group_category in H.
  step H st Hst. rewrite outcome_lift in H.
  destruct (scan_pages_ret _ _ _ _ Hst) as [parsed Hparsed].
  rewrite (scan_pages_parsed _ _ [] [] Hparsed) in Hst.
  injection Hst as <-. cbn [snd app] in H.
  apply sort_returns in H. destruct H as [-> _].
  pose proof (stable_sort_perm (kept (concat parsed) [])) as P.
  split.
  - eapply Permutation_NoDup; [apply Permutation_map, P | apply kept_NoDup].
  - intros it Hit.
    apply (Permutation_in _ (Permutation_sym P)) in Hit.
    apply kept_incl in Hit. apply in_concat in Hit.
    destruct Hit as [items [Hitems Hin]].
    clear P. induction Hparsed as [|p its ps rest Hp Hrest IH];
      [contradiction|].
    destruct Hitems as [-> | Hitems].
    + exists p, items. simpl. auto.
    + destruct (IH Hitems) as [page [items' [H1 [H2 H3]]]].
      exists page, items'. simpl. auto.
Qed.

Lemma group_category_no_repeats_witness :
  NoDup (map number [item_A; item_B]) /\
  forall it, In it [item_A; item_B] ->
    exists page items,
      In page [page_ABA; page_ABA] /\ parses page items /\ In it items.
Proof.
  apply (group_category_no_repeats [page_ABA; page_ABA]).
  vm_compute. reflexivity.
Defined.

(** X13. One page that cannot be parsed, in any category, and
    [group_items] raises: no category is built. *)
Theorem group_items_all_or_nothing
    (categories : list (string * string * list element))
    (name label : string) (pages : list element) (page : element) :
  In (name, label, pages) categories -> In page pages -> fails page ->
  exists e, outcome (group_items categories) = Raise e.
Proof.
  intros Hcat Hpage Hfails.
  induction categories as [|[[n l] ps] rest IH]; [contradiction|].
  simpl. destruct (outcome (group_category ps)) as [items|e] eqn:Hg.
  - rewrite (outcome_bind_step _ _ items Hg).
    destruct Hcat as [Heq | Hcat].
    + injection Heq as -> -> ->. unfold group_category in Hg.
      step Hg st Hst.
      destruct (scan_pages_fails pages page [] [] Hpage Hfails) as [e He].
      congruence.
    + destruct (IH Hcat) as [e He]. exists e.
      now apply outcome_bind_raise.
  - exists e. now apply outcome_bind_raise.
Qed.

Lemma group_items_all_or_nothing_witness :
  exists e,
    outcome (group_items
               [("hdd", "Hard drives", [page_ABA]);
                ("ssd", "Solid state drives", [page_ABA; page_empty_number])])
    = Raise e.
Proof.
  apply (group_items_all_or_nothing _ "ssd" "Solid state drives"
           [page_ABA; page_empty_number] page_empty_number).
  - simpl. auto.
  - simpl. auto.
  - exists AssertionError. vm_compute. reflexivity.
Defined.

End CategoryFacts.

(** ** The order of the items *)

Module OrderFacts.

Import Html Crawl Props Examples RankFacts ExtractFacts OrderProps.

Lemma place_leb_trans x y z :
  Decimal.place_leb x y = true -> Decimal.place_leb y z = true ->
  Decimal.place_leb x z = true.
Proof.
  unfold Decimal.place_leb. intros H1 H2.
  apply orb_true_iff in H1. apply orb_true_iff in H2. apply orb_true_iff.
  destruct H1 as [H1|H1], H2 as [H2|H2];
    try apply Z.ltb_lt in H1; try apply Z.ltb_lt in H2;
    try (apply andb_true_iff in H1; destruct H1 as [E1 Q1];
         apply Z.eqb_eq in E1);
    try (apply andb_true_iff in H2; destruct H2 as [E2 Q2];
         apply Z.eqb_eq in E2).
  - left. apply Z.ltb_lt. lia.
  - left. apply Z.ltb_lt. lia.
  - left. apply Z.ltb_lt. lia.
  - right. apply andb_true_iff. split; [apply Z.eqb_eq; lia|].
    apply Qle_bool_iff in Q1, Q2. apply Qle_bool_iff.
    eapply Qle_trans; eassumption.
Qed.

Lemma leb_trans a b c :
  Decimal.leb a b = true -> Decimal.leb b c = true -> Decimal.leb a c = true.
Proof. apply place_leb_trans. Qed.

(** An item goes before the items it ties with. *)
Lemma insert_tied k x l :
  filter (tied k) (insert x l) =
  if tied k x then x :: filter (tied k) l else filter (tied k) l.
Proof.
  induction l as [|y r IH]; [reflexivity|].
  cbn [insert]. destruct (Decimal.leb (price_per_tb x) (price_per_tb y)) eqn:E.
  - reflexivity.
  - cbn [filter]. rewrite IH.
    destruct (tied k x) eqn:Hx; [|reflexivity].
    destruct (tied k y) eqn:Hy; [|reflexivity].
    unfold tied, Decimal.eqb in Hx, Hy.
    apply andb_true_iff in Hx. apply andb_true_iff in Hy.
    destruct Hx as [Hx _], Hy as [_ Hy].
    rewrite (leb_trans _ _ _ Hx Hy) in E. discriminate.
Qed.

Lemma stable_sort_tied k l :
  filter (tied k) (stable_sort l) = filter (tied k) l.
Proof.
  induction l as [|x r IH]; [reflexivity|].
  cbn [stable_sort filter]. rewrite insert_tied, IH. reflexivity.
Qed.

(** X18. Items with the same price per terabyte are ranked in the order in
    which the listings first showed them: the sort does not reorder
    ties. *)
Theorem ties_keep_listing_order (listings out : list Item) (k : Decimal.t) :
  outcome (dedupe_and_rank listings) = Ret out ->
  filter (tied k) out = filter (tied k) (kept listings []).
Proof.
  intros H. rewrite dedupe_and_rank_eq in H. unfold outcome in H. simpl in H.
  apply sort_returns in H. destruct H as [-> _].
  apply stable_sort_tied.
Qed.

Lemma ties_keep_listing_order_witness :
  filter (tied (price_per_tb item_B)) [item_A; item_B_twin; item_B] =
  filter (tied (price_per_tb item_B))
    (kept [item_B_twin; item_B; item_A; item_B_twin] []).
Proof.
  apply (ties_keep_listing_order [item_B_twin; item_B; item_A; item_B_twin]).
  vm_compute. reflexivity.
Defined.

Lemma parse_items_results containers : forall acc items,
  outcome (parse_items containers acc) = Ret items <->
  exists results,
    Forall2 (fun c r => outcome (parse_item c) = Ret r) containers results /\
    items = acc ++ flat_map yield results.
Proof.
  induction containers as [|c rest IH]; intros acc items; cbn [parse_items].
  - split.
    + intros H. unfold ret, outcome in H. simpl in H. injection H as <-.
      exists []. split; [constructor | now rewrite app_nil_r].
    + intros [results [HF ->]]. inversion HF; subst. simpl.
      now rewrite app_nil_r.
  - split.
    + intros H. step H r Hr. apply IH in H.
      destruct H as [results [HF ->]].
      exists (r :: results). split; [now constructor|].
      destruct r as [it|]; simpl; [now rewrite <- app_assoc | reflexivity].
    + intros [results [HF ->]].
      inversion HF as [|? r ? rs Hr Hrs]; subst.
      rewrite (outcome_bind_step _ _ r Hr). apply IH.
      exists rs. split; [exact Hrs|].
      destruct r as [it|]; simpl; [now rewrite <- app_assoc | reflexivity].
Qed.

(** X19. A page is parsed exactly when each of its item containers is,
    and its items are then what the containers give, in the order of
    the document and at most one from each. *)
Theorem parse_page_document_order (root : element) (items : list Item) :
  outcome (parse_page root) = Ret items <->
  exists results,
    Forall2 (fun c r => outcome (parse_item c) = Ret r)
      (xpath_div_class_contains "item-container" root) results /\
    items = flat_map yield results.
Proof.
  unfold parse_page. split.
  - intros H. apply parse_items_results in H. exact H.
  - intros H. apply parse_items_results. exact H.
Qed.

Lemma parse_page_document_order_witness :
  exists results,
    Forall2 (fun c r => outcome (parse_item c) = Ret r)
      (xpath_div_class_contains "item-container" page_ABA) results /\
    [item_A; item_B; item_A_later] = flat_map yield results.
Proof.
  apply (proj1 (parse_page_document_order page_ABA _)).
  vm_compute. reflexivity.
Defined.

End OrderFacts.

(** ** The number of pages *)

Module PageCountFacts.

Import Text Re NumeralProps TextFacts ReFacts ReProps ReInversion GroupFacts.
Import LitFacts.
Import Files FilesProps.








End PageCountFacts.

(** ** The links of the report *)

Module ReportFacts.

Import Text Report.

Lemma replace_char_same a s :
  replace_char a (String a EmptyString) s = s.
Proof.
  induction s as [|c t IH]; simpl; [reflexivity|].
  destruct (Ascii.eqb_spec c a) as [->|_]; simpl; now rewrite IH.
Qed.

(** X16. The title goes into the [title] attribute of the link as it is: the
    replacement that is to make it safe puts a double quote for every
    double quote, so that a quote in the title is not escaped.  Without a
    URL that begins with [http] the title is returned bare. *)
Theorem create_html_link_title_verbatim (title : string) (url : option string) :
  create_html_link title url =
  match url with
  | Some u =>
      if String.prefix "http" u then
        ("<a href=" ++ dq ++ u ++ dq ++ " target=" ++ dq ++ "_blank" ++ dq
         ++ " rel=" ++ dq ++ "noopener noreferrer" ++ dq
         ++ " title=" ++ dq ++ title ++ dq ++ ">" ++ title ++ "</a>")%string
      else title
  | None => title
  end.
Proof.
  destruct url as [u|]; [|reflexivity].
  unfold create_html_link.
  destruct (String.prefix "http" u) eqn:E.
  - destruct u as [|c t]; [discriminate|].
    cbn [String.eqb negb orb]. unfold dq at 1. now rewrite replace_char_same.
  - now rewrite orb_true_r.
Qed.

End ReportFacts.
